(** * The CloudFormation resource-provider executor

    A shallow embedding of
    [localstack/services/cloudformation/resource_provider.py]:
    the status and event types, the request translator [convert_payload],
    the provider registry, the one-shot dispatch [execute_action] and the
    polling loop [deploy_loop].

    Python objects live in a store: a payload is a reference to a [dict]
    object, and so are its [callbackContext] and [requestData].  The
    executor and the providers run in a state-and-exception monad over that
    store, the providers' own state, the draws of [uuid.uuid4], the readings
    of the monotonic clock and a trace of the calls that leave the
    executor. *)

From stdpp Require Import base decidable option list strings gmap fin_maps.
From Stdlib Require Import ZArith Lia.
From Stdlib Require SpecFloat.

Local Open Scope string_scope.
Local Open Scope list_scope.
Local Open Scope nat_scope.

(** ** Python values and the object store *)

(** A value is an immediate ([None], a [bool], an [int], a [str]) or a
    reference to a mutable object of the store. *)
Inductive val :=
| VNone
| VBool (b : bool)
| VInt (n : Z)
| VStr (s : string)
| VRef (l : nat).

#[global] Instance val_eq_dec : EqDecision val.
Proof. solve_decision. Defined.

(** The mutable objects a payload is made of: [dict]s with [str] keys and
    [list]s. *)
Inductive obj :=
| ODict (d : gmap string val)
| OList (xs : list val).

(** The store: the object of reference [VRef l] is the [l]-th one; objects
    are appended when they are created and never freed. *)
Abbreviation store := (list obj).

(** ** The state model *)

Inductive OperationStatus :=
| PENDING
| IN_PROGRESS
| SUCCESS
| FAILED.

#[global] Instance OperationStatus_eq_dec : EqDecision OperationStatus.
Proof. solve_decision. Defined.

Module Event.
Record ProgressEvent := {
  status : OperationStatus;
  resource_model : val;
  message : string;
  result : option string;
  error_code : option string;
  custom_context : val;
}.
End Event.
Abbreviation ProgressEvent := Event.ProgressEvent.

(** ** The request model *)

(** What [connect_to] is called with; the client factory is this scope. *)
Record ServiceLevelClientFactory := {
  aws_access_key_id : val;
  aws_session_token : val;
  aws_secret_access_key : val;
  client_region_name : val;
}.

Module Request.
Record ResourceRequest := {
  _original_payload : val;
  aws_client_factory : ServiceLevelClientFactory;
  request_token : string;
  stack_name : string;
  stack_id : string;
  account_id : string;
  region_name : string;
  desired_state : val;
  logical_resource_id : val;
  logger : string;
  custom_context : val;
  previous_state : option val;
  previous_tags : option (gmap string string);
  tags : gmap string string;
}.
End Request.
Abbreviation ResourceRequest := Request.ResourceRequest.

(** ** The typed dictionaries of the wire payload

    [TypedDict]s are plain [dict]s at run time; these predicates say that
    the object behind a value has the declared keys with the declared
    types. *)

Definition dict_at (h : store) (v : val) : option (gmap string val) :=
  match v with
  | VRef l => match h !! l with Some (ODict d) => Some d | _ => None end
  | _ => None
  end.

Definition is_str (v : val) : bool :=
  match v with VStr _ => true | _ => false end.

Definition has_str (d : gmap string val) (key : string) : bool :=
  match d !! key with Some v => is_str v | None => false end.

Definition has_key (d : gmap string val) (key : string) : bool :=
  match d !! key with Some _ => true | None => false end.

Definition has_dict (h : store) (d : gmap string val) (key : string) : bool :=
  match d !! key with
  | Some v => match dict_at h v with Some _ => true | None => false end
  | None => false
  end.

(** [dict[str, str]] *)
Definition has_str_dict (h : store) (d : gmap string val) (key : string) : bool :=
  match d !! key with
  | Some v =>
      match dict_at h v with
      | Some tags => forallb (λ kv, is_str kv.2) (map_to_list tags)
      | None => false
      end
  | None => false
  end.

(** [class Credentials(TypedDict)] *)
Definition is_Credentials (h : store) (v : val) : bool :=
  match dict_at h v with
  | Some d =>
      has_str d "accessKeyId" && has_str d "secretAccessKey"
      && has_str d "sessionToken"
  | None => false
  end.

(** [class ResourceProviderPayloadRequestData(TypedDict)] *)
Definition is_ResourceProviderPayloadRequestData (h : store) (v : val) : bool :=
  match dict_at h v with
  | Some d =>
      has_str d "logicalResourceId"
      && has_key d "resourceProperties"
      && has_key d "previousResourceProperties"
      && match d !! "callerCredentials" with
         | Some c => is_Credentials h c | None => false end
      && match d !! "providerCredentials" with
         | Some c => is_Credentials h c | None => false end
      && has_str_dict h d "systemTags"
      && has_str_dict h d "previousSystemTags"
      && has_str_dict h d "stackTags"
      && has_str_dict h d "previousStackTags"
  | None => false
  end.

(** [class ResourceProviderPayload(TypedDict)] *)
Definition is_ResourceProviderPayload (h : store) (v : val) : bool :=
  match dict_at h v with
  | Some d =>
      has_dict h d "callbackContext"
      && has_str d "stackId"
      && match d !! "requestData" with
         | Some r => is_ResourceProviderPayloadRequestData h r | None => false end
      && has_str d "resourceType"
      && has_str d "resourceTypeVersion"
      && has_str d "awsAccountId"
      && has_str d "bearerToken"
      && has_str d "region"
      && has_str d "action"
  | None => false
  end.

(** ** Providers and the registry *)

Inductive capability_name := Create | Update | Delete.

#[global] Instance capability_name_eq_dec : EqDecision capability_name.
Proof. solve_decision. Defined.

Inductive exn :=
| NotImplementedError (arg : option val)
| TimeoutError (msg : string)
| KeyError (key : string)
| TypeError
| ValueError
| OverflowError
| OSError (errno : Z)
| OtherError (name : string).

(** ** Numbers

    The delay of the loop is declared a [float] and defaults to the [int]
    [5]; it goes to [time.sleep] as it is.  A [float] is an IEEE 754 double:
    a zero, an infinity, a NaN or [(-1)^s * m * 2^e]. *)
Inductive number :=
| Int (n : Z)
| Float (f : SpecFloat.spec_float).

Section Model.

(** What providers keep between calls outside the request: the emulated
    service behind them. *)
Context {PS : Type}.

(** A capability is arbitrary code: it reads and writes the store and its
    own state, and returns an event or raises. *)
Definition capability : Type :=
  PS → store → ResourceRequest → (exn + ProgressEvent) * PS * store.

(** A provider class: its [TYPE] attribute when it has one and its three
    capabilities. *)
Record ProviderCls := {
  TYPE : option string;
  create : capability;
  update : capability;
  delete : capability;
}.

(** [class ResourceProvider]: every capability raises. *)
Definition not_implemented : capability :=
  λ ps h _, (inl (NotImplementedError None), ps, h).

Definition ResourceProvider : ProviderCls :=
  {| TYPE := None;
     create := not_implemented;
     update := not_implemented;
     delete := not_implemented |}.

(** ** The world and its monad *)

(** The calls that leave the executor, in the order they are made. *)
Inductive call :=
| CallDeepcopy (v : val)
| CallConnect (f : ServiceLevelClientFactory)
| CallUuid4 (draw : nat)
| CallGetLogger (name : string)
| CallInstantiate (cls : ProviderCls)
| CallInvoke (c : capability_name) (request : ResourceRequest)
| CallSleep (t : number).

Record world := {
  heap : store;
  providers_state : PS;
  PRIVATE_REGISTRY : gmap string ProviderCls;
  PUBLIC_REGISTRY : gmap string ProviderCls;
  uuid_source : nat → string;   (* the outcome of the n-th draw of uuid4 *)
  uuid_draws : nat;             (* the draws made so far *)
  monotonic : nat → Z;          (* the n-th reading of the monotonic clock,
                                   in nanoseconds *)
  clock_reads : nat;            (* the readings made so far *)
  trace : list call;
}.

Definition with_heap (h : store) (w : world) : world :=
  {| heap := h; providers_state := providers_state w;
     PRIVATE_REGISTRY := PRIVATE_REGISTRY w; PUBLIC_REGISTRY := PUBLIC_REGISTRY w;
     uuid_source := uuid_source w; uuid_draws := uuid_draws w;
     monotonic := monotonic w; clock_reads := clock_reads w;
     trace := trace w |}.

Definition with_providers_state (ps : PS) (w : world) : world :=
  {| heap := heap w; providers_state := ps;
     PRIVATE_REGISTRY := PRIVATE_REGISTRY w; PUBLIC_REGISTRY := PUBLIC_REGISTRY w;
     uuid_source := uuid_source w; uuid_draws := uuid_draws w;
     monotonic := monotonic w; clock_reads := clock_reads w;
     trace := trace w |}.

Definition with_private_registry (r : gmap string ProviderCls) (w : world) : world :=
  {| heap := heap w; providers_state := providers_state w;
     PRIVATE_REGISTRY := r; PUBLIC_REGISTRY := PUBLIC_REGISTRY w;
     uuid_source := uuid_source w; uuid_draws := uuid_draws w;
     monotonic := monotonic w; clock_reads := clock_reads w;
     trace := trace w |}.

Definition with_uuid_draws (n : nat) (w : world) : world :=
  {| heap := heap w; providers_state := providers_state w;
     PRIVATE_REGISTRY := PRIVATE_REGISTRY w; PUBLIC_REGISTRY := PUBLIC_REGISTRY w;
     uuid_source := uuid_source w; uuid_draws := n;
     monotonic := monotonic w; clock_reads := clock_reads w;
     trace := trace w |}.

Definition with_clock_reads (n : nat) (w : world) : world :=
  {| heap := heap w; providers_state := providers_state w;
     PRIVATE_REGISTRY := PRIVATE_REGISTRY w; PUBLIC_REGISTRY := PUBLIC_REGISTRY w;
     uuid_source := uuid_source w; uuid_draws := uuid_draws w;
     monotonic := monotonic w; clock_reads := n;
     trace := trace w |}.

Definition record (c : call) (w : world) : world :=
  {| heap := heap w; providers_state := providers_state w;
     PRIVATE_REGISTRY := PRIVATE_REGISTRY w; PUBLIC_REGISTRY := PUBLIC_REGISTRY w;
     uuid_source := uuid_source w; uuid_draws := uuid_draws w;
     monotonic := monotonic w; clock_reads := clock_reads w;
     trace := trace w ++ [c] |}.

(** A computation returns a value or raises, and leaves a world either
    way. *)
Definition M (A : Type) : Type := world → (exn + A) * world.

#[global] Instance M_ret : MRet M := λ A a w, (inr a, w).

#[global] Instance M_bind : MBind M := λ A B k m w,
  match m w with
  | (inr a, w') => k a w'
  | (inl e, w') => (inl e, w')
  end.

Definition raise {A} (e : exn) : M A := λ w, (inl e, w).

End Model.

Arguments capability : clear implicits.
Arguments ProviderCls : clear implicits.
Arguments call : clear implicits.
Arguments world : clear implicits.
Arguments M : clear implicits.


Section Operations.

Context {PS : Type}.

Local Abbreviation M := (M PS).
Local Abbreviation world := (world PS).
Local Abbreviation ProviderCls := (ProviderCls PS).

(** ** Subscripts, dict displays and object creation *)

(** [v[key]] *)
Definition getitem (v : val) (key : string) : M val := λ w,
  match v with
  | VRef l =>
      match heap w !! l with
      | Some (ODict d) =>
          match d !! key with
          | Some x => (inr x, w)
          | None => (inl (KeyError key), w)
          end
      | _ => (inl TypeError, w)
      end
  | _ => (inl TypeError, w)
  end.

(** [v[key] = x]: the object behind [v] is updated in place, so every
    holder of the reference sees it. *)
Definition setitem (v : val) (key : string) (x : val) : M () := λ w,
  match v with
  | VRef l =>
      match heap w !! l with
      | Some (ODict d) =>
          (inr (), with_heap (<[l := ODict (<[key := x]> d)]> (heap w)) w)
      | _ => (inl TypeError, w)
      end
  | _ => (inl TypeError, w)
  end.

(** The items [**v] unpacks: [v] has to be a mapping. *)
Definition mapping (v : val) : M (gmap string val) := λ w,
  match dict_at (heap w) v with
  | Some d => (inr d, w)
  | None => (inl TypeError, w)
  end.

(** A new object; its reference is the next free one. *)
Definition new (o : obj) : M val := λ w,
  (inr (VRef (length (heap w))), with_heap (heap w ++ [o]) w).

(** ** The library calls *)

(** [copy.deepcopy] copies the graph of objects behind a value onto new
    references, sharing and cycles included.  The store is relocated as a
    whole: the copy of the object [l] is the object [l + n], [n] the size of
    the store at the call, and the references inside the copies are moved the
    same way.  An object that the argument does not reach gets a twin as
    well, which no reference leads to. *)
Definition relocate (n : nat) (v : val) : val :=
  match v with
  | VRef l => VRef (l + n)
  | _ => v
  end.

Definition relocate_obj (n : nat) (o : obj) : obj :=
  match o with
  | ODict d => ODict (relocate n <$> d)
  | OList xs => OList (relocate n <$> xs)
  end.

Definition deepcopy (v : val) : M val := λ w,
  let n := length (heap w) in
  (inr (relocate n v),
   record (CallDeepcopy v) (with_heap (heap w ++ (relocate_obj n <$> heap w)) w)).

(** [connect_to(...)] builds the client factory of a credential scope;
    nothing is sent. *)
Definition connect_to (access_key session_token secret_key region : val)
  : M ServiceLevelClientFactory := λ w,
  let f := {| aws_access_key_id := access_key;
              aws_session_token := session_token;
              aws_secret_access_key := secret_key;
              client_region_name := region |} in
  (inr f, record (CallConnect f) w).

(** [str(uuid.uuid4())]: the next draw of the random source. *)
Definition uuid4 : M string := λ w,
  let n := uuid_draws w in
  (inr (uuid_source w n), record (CallUuid4 n) (with_uuid_draws (S n) w)).

(** [logging.getLogger(name)] *)
Definition getLogger (name : string) : M string := λ w,
  (inr name, record (CallGetLogger name) w).

(** [time.sleep(t)], as CPython 3.11 runs it on Linux (x86-64).

    The delay is first turned into a number of nanoseconds in a signed
    64-bit integer: an [int] is multiplied by [10^9]; a [float] is
    multiplied by [1e9] as a double, rounded to the next integer away from
    zero and converted.  A NaN raises [ValueError], what is out of range
    [OverflowError], and so does an infinity. *)
Definition int64 (z : Z) : Z := ((z + 2 ^ 63) `mod` 2 ^ 64 - 2 ^ 63)%Z.

(** [ceil] of a positive double and [floor] of a negative one. *)
Definition round_up (f : SpecFloat.spec_float) : option Z :=
  match f with
  | SpecFloat.S754_zero _ => Some 0%Z
  | SpecFloat.S754_finite s m e =>
      let magnitude :=
        if (0 <=? e)%Z then (Z.pos m * 2 ^ e)%Z
        else ((Z.pos m + 2 ^ (- e) - 1) `div` 2 ^ (- e))%Z in
      Some (if s then (- magnitude)%Z else magnitude)
  | _ => None
  end.

(** The double [1e9]. *)
Definition SEC_TO_NS : SpecFloat.spec_float :=
  SpecFloat.S754_finite false 8388608000000000 (-23).

(** The range check of a double lets [2^63] through, which the conversion
    turns into [-2^63]. *)
Definition nanoseconds (t : number) : exn + Z :=
  match t with
  | Int n =>
      if ((n <? (- 2 ^ 63) `quot` 10 ^ 9) || ((2 ^ 63 - 1) `quot` 10 ^ 9 <? n))%Z
      then inl OverflowError
      else inr (n * 10 ^ 9)%Z
  | Float SpecFloat.S754_nan => inl ValueError
  | Float f =>
      match round_up (SpecFloat.SFmul 53 1024 f SEC_TO_NS) with
      | Some d =>
          if ((- 2 ^ 63 <=? d) && (d <=? 2 ^ 63))%Z then inr (int64 d)
          else inl OverflowError
      | None => inl OverflowError
      end
  end.

(** The length of the sleep in nanoseconds, or what [time.sleep] raises
    before any sleeping: a negative delay is refused. *)
Definition timeout_of (t : number) : exn + Z :=
  match nanoseconds t with
  | inr ns => if (ns <? 0)%Z then inl ValueError else inr ns
  | inl e => inl e
  end.

(** The thread then sleeps until the deadline, the reading of the monotonic
    clock plus the delay, a sum that wraps around; the system call refuses a
    deadline that came out negative with [EINVAL], which is raised as
    [OSError]. *)
Definition EINVAL : Z := 22.

Definition sleep (t : number) : M () := λ w,
  match timeout_of t with
  | inl e => (inl e, w)
  | inr timeout =>
      let n := clock_reads w in
      let deadline := int64 (monotonic w n + timeout) in
      let w1 := with_clock_reads (S n) w in
      if (deadline <? 0)%Z then (inl (OSError EINVAL), w1)
      else (inr (), record (CallSleep t) w1)
  end.

(** [provider_cls()]: the provider classes have the constructor of
    [object]. *)
Definition instantiate (provider_cls : ProviderCls) : M ProviderCls := λ w,
  (inr provider_cls, record (CallInstantiate provider_cls) w).

(** [provider.create(request)] and its siblings: the capability runs on the
    store and on the providers' state. *)
Definition capability_of (c : capability_name) (provider : ProviderCls)
  : capability PS :=
  match c with
  | Create => create provider
  | Update => update provider
  | Delete => delete provider
  end.

Definition invoke (c : capability_name) (provider : ProviderCls)
    (request : ResourceRequest) : M ProgressEvent := λ w,
  let w0 := record (CallInvoke c request) w in
  match capability_of c provider (providers_state w0) (heap w0) request with
  | (out, ps, h) => (out, with_heap h (with_providers_state ps w0))
  end.

(** ** The request translator *)

Definition convert_payload (stack_name stack_id : string) (payload : val)
  : M ResourceRequest :=
  requestData ← getitem payload "requestData";
  callerCredentials ← getitem requestData "callerCredentials";
  accessKeyId ← getitem callerCredentials "accessKeyId";
  requestData ← getitem payload "requestData";
  callerCredentials ← getitem requestData "callerCredentials";
  sessionToken ← getitem callerCredentials "sessionToken";
  requestData ← getitem payload "requestData";
  callerCredentials ← getitem requestData "callerCredentials";
  secretAccessKey ← getitem callerCredentials "secretAccessKey";
  region ← getitem payload "region";
  client_factory ← connect_to accessKeyId sessionToken secretAccessKey region;
  requestData ← getitem payload "requestData";
  desired_state ← getitem requestData "resourceProperties";
  token ← uuid4;
  requestData ← getitem payload "requestData";
  logicalResourceId ← getitem requestData "logicalResourceId";
  logger ← getLogger "abc";
  callbackContext ← getitem payload "callbackContext";
  mret {| Request._original_payload := desired_state;
          Request.aws_client_factory := client_factory;
          Request.request_token := token;
          Request.stack_name := stack_name;
          Request.stack_id := stack_id;
          Request.account_id := "000000000000";
          Request.region_name := "us-east-1";
          Request.desired_state := desired_state;
          Request.logical_resource_id := logicalResourceId;
          Request.logger := logger;
          Request.custom_context := callbackContext;
          Request.previous_state := None;
          Request.previous_tags := None;
          Request.tags := ∅ |}.

(** ** The registry *)

(** [register_resource_provider]: a class with a non-empty [TYPE] is put in
    the private registry under it; the class is returned either way. *)
Definition register_resource_provider (cls : ProviderCls) : M ProviderCls := λ w,
  match TYPE cls with
  | Some provider_type =>
      if decide (provider_type = "") then (inr cls, w)
      else (inr cls,
            with_private_registry (<[provider_type := cls]> (PRIVATE_REGISTRY w)) w)
  | None => (inr cls, w)
  end.

(** ** The executor *)

Record ResourceProviderExecutor := {
  resource_type : string;
  stack_name : string;
  stack_id : string;
}.

Definition execute_action (self : ResourceProviderExecutor) (raw_payload : val)
  : M ProgressEvent := λ w,
  match PRIVATE_REGISTRY w !! resource_type self with
  | Some provider_cls =>
      (change_type ← getitem raw_payload "action";
       request ← convert_payload (stack_name self) (stack_id self) raw_payload;
       provider ← instantiate provider_cls;
       if decide (change_type = VStr "Add") then
         invoke Create provider request
       else if decide (change_type = VStr "Dynamic" ∨ change_type = VStr "Modify") then
         invoke Update provider request
       else if decide (change_type = VStr "Remove") then
         invoke Delete provider request
       else raise (NotImplementedError (Some change_type))) w
  | None => (inl (NotImplementedError None), w)
  end.

(** The rest of a turn of the loop once the event is known not to be a
    success: the contexts are merged into a new dict, the payload is made to
    point to it, and the loop sleeps. *)
Definition carry_context (payload : val) (event : ProgressEvent)
    (sleep_time : number)
  : M () :=
  callbackContext ← getitem payload "callbackContext";
  previous ← mapping callbackContext;
  returned ← mapping (Event.custom_context event);
  context ← new (ODict (returned ∪ previous));
  setitem payload "callbackContext" context;;
  sleep sleep_time.

(** [for _ in range(n): ... else: raise TimeoutError(...)] *)
Fixpoint deploy_turns (self : ResourceProviderExecutor) (payload : val)
    (sleep_time : number) (n : nat) : M ProgressEvent :=
  match n with
  | O => raise (TimeoutError "Could not perform deploy loop action")
  | S n' =>
      event ← execute_action self payload;
      if decide (Event.status event = SUCCESS) then mret event
      else
        carry_context payload event sleep_time;;
        deploy_turns self payload sleep_time n'
  end.

Definition deploy_loop (self : ResourceProviderExecutor) (raw_payload : val)
    (max_iterations : Z) (sleep_time : number) : M ProgressEvent :=
  payload ← deepcopy raw_payload;
  deploy_turns self payload sleep_time (Z.to_nat max_iterations).

End Operations.

(** ** A stack with one resource

    The scenario of the specification: a payload for the action [Add] on a
    resource of type [Test::Resource] with an empty [callbackContext], and a
    provider that counts its calls. *)
Module Scenario.

Definition credentials : obj :=
  ODict {[ "accessKeyId" := VStr "test"; "secretAccessKey" := VStr "test";
           "sessionToken" := VStr "" ]}.

Definition request_data : obj :=
  ODict {[ "logicalResourceId" := VStr "Res";
           "resourceProperties" := VRef 3;
           "previousResourceProperties" := VNone;
           "callerCredentials" := VRef 1;
           "providerCredentials" := VRef 2;
           "systemTags" := VRef 4;
           "previousSystemTags" := VRef 5;
           "stackTags" := VRef 6;
           "previousStackTags" := VRef 7 ]}.

Definition payload_of (action : string) : obj :=
  ODict {[ "callbackContext" := VRef 0;
           "stackId" := VStr "stack-1";
           "requestData" := VRef 8;
           "resourceType" := VStr "Test::Resource";
           "resourceTypeVersion" := VStr "1";
           "awsAccountId" := VStr "123456789012";
           "bearerToken" := VStr "bearer";
           "region" := VStr "eu-west-1";
           "action" := VStr action ]}.

(** The caller's store; the payload is the object 9 and its
    [callbackContext] the object 0. *)
Definition store_with (context : gmap string val) (action : string) : store :=
  [ ODict context;                            (* 0: callbackContext *)
    credentials;                              (* 1: callerCredentials *)
    credentials;                              (* 2: providerCredentials *)
    ODict {[ "QueueName" := VStr "q" ]};      (* 3: resourceProperties *)
    ODict ∅; ODict ∅; ODict ∅; ODict ∅;       (* 4-7: the tags *)
    request_data;                             (* 8: requestData *)
    payload_of action ].                      (* 9: the payload *)

Definition store_of (action : string) : store := store_with ∅ action.

Definition raw_payload : val := VRef 9.

Definition event_of (status : OperationStatus) (request : ResourceRequest)
    (context : val) : ProgressEvent :=
  {| Event.status := status;
     Event.resource_model := Request.desired_state request;
     Event.message := "";
     Event.result := None;
     Event.error_code := None;
     Event.custom_context := context |}.

(** Its state is the number of calls so far.  The first [pending] calls
    answer [IN_PROGRESS] with the context [{"attempt": n}], the later ones
    [SUCCESS] with the default context, an empty dict. *)
Definition counting (pending : nat) : capability nat := λ calls h request,
  let n := S calls in
  if decide (n ≤ pending)%nat then
    (inr (event_of IN_PROGRESS request (VRef (length h))), n,
     (h ++ [ODict {[ "attempt" := VInt (Z.of_nat n) ]}])%list)
  else
    (inr (event_of SUCCESS request (VRef (length h))), n, (h ++ [ODict ∅])%list).

(** Every call answers [status], with the default context. *)
Definition constant (status : OperationStatus) : capability nat := λ calls h request,
  (inr (event_of status request (VRef (length h))), S calls, (h ++ [ODict ∅])%list).

(** A provider that writes the identifier of the resource into the
    properties it was handed, in place, and returns them as the model: the
    first call answers [IN_PROGRESS], the later ones [SUCCESS]. *)
Definition stamping : capability nat := λ calls h request,
  match Request.desired_state request with
  | VRef l =>
      match h !! l with
      | Some (ODict d) =>
          let h1 := <[l := ODict (<["Id" := VStr "res-1"]> d)]> h in
          (inr (event_of (if decide (calls = 0) then IN_PROGRESS else SUCCESS)
                  request (VRef (length h1))),
           S calls, (h1 ++ [ODict {[ "stamped" := VBool true ]}])%list)
      | _ => (inl TypeError, calls, h)
      end
  | _ => (inl TypeError, calls, h)
  end.

Definition blank : ProgressEvent :=
  {| Event.status := PENDING;
     Event.resource_model := VNone;
     Event.message := "";
     Event.result := None;
     Event.error_code := None;
     Event.custom_context := VNone |}.

Definition provider_of (c : capability nat) : ProviderCls nat :=
  {| TYPE := Some "Test::Resource"; create := c; update := c; delete := c |}.


(** The [float] [inf]. *)
Definition forever : number := Float (SpecFloat.S754_infinity false).

(** The clock of this scenario: an hour after boot at the first reading, six
    seconds later at each further one. *)
Definition clock (n : nat) : Z := ((3600 + 6 * Z.of_nat n) * 10 ^ 9)%Z.

(** The draws of [uuid4] in this scenario. *)
Fixpoint token (n : nat) : string :=
  match n with
  | O => "token"
  | S n' => token n' +:+ "+"
  end.

Definition world_from (h : store) (registry : gmap string (ProviderCls nat))
  : world nat :=
  {| heap := h;
     providers_state := 0;
     PRIVATE_REGISTRY := registry;
     PUBLIC_REGISTRY := ∅;
     uuid_source := token;
     uuid_draws := 0;
     monotonic := clock;
     clock_reads := 0;
     trace := [] |}.

Definition world_of (action : string) (registry : gmap string (ProviderCls nat))
  : world nat :=
  world_from (store_of action) registry.

Definition executor : ResourceProviderExecutor :=
  {| resource_type := "Test::Resource"; stack_name := "stack"; stack_id := "stack-1" |}.

End Scenario.

(** ** Counting the calls of a trace *)

Definition is_invoke {PS} (c : call PS) : bool :=
  match c with CallInvoke _ _ => true | _ => false end.

Definition is_sleep {PS} (c : call PS) : bool :=
  match c with CallSleep _ => true | _ => false end.

Definition invocations {PS} (t : list (call PS)) : nat :=
  length (List.filter is_invoke t).

Definition sleeps {PS} (t : list (call PS)) : nat :=
  length (List.filter is_sleep t).

(** ** The attempts of a run

    What a provider answers depends on the store and on its own state, so
    "the attempt [i+1]" is read off the run.  [attempt self payload sleep_time
    i w] is the outcome of the attempt [i+1] of the loop that starts in [w]
    and the world that attempt leaves; there is none when an earlier attempt
    raised or came back with [SUCCESS], or when the loop did not get through
    the merge and the sleep that follow an attempt. *)
Fixpoint attempt {PS} (self : ResourceProviderExecutor) (payload : val)
    (sleep_time : number) (i : nat) (w : world PS)
  : option ((exn + ProgressEvent) * world PS) :=
  match i with
  | O => Some (execute_action self payload w)
  | S i' =>
      match execute_action self payload w with
      | (inr event, w1) =>
          if decide (Event.status event = SUCCESS) then None
          else
            match carry_context payload event sleep_time w1 with
            | (inr _, w2) => attempt self payload sleep_time i' w2
            | (inl _, _) => None
            end
      | (inl _, _) => None
      end
  end.

(** The attempts of [deploy_loop] are made on its copy of the payload. *)
Definition loop_attempt {PS} (self : ResourceProviderExecutor) (raw_payload : val)
    (sleep_time : number) (i : nat) (w : world PS)
  : option ((exn + ProgressEvent) * world PS) :=
  match deepcopy raw_payload w with
  | (inr payload, w0) => attempt self payload sleep_time i w0
  | (inl _, _) => None
  end.

(** The [callbackContext] of a payload: the items of the dict that the key
    leads to. *)
Definition context_of (h : store) (payload : val) : option (gmap string val) :=
  d ← dict_at h payload; c ← d !! "callbackContext"; dict_at h c.

(** The attempt [i+1] returns an event and its status is not [SUCCESS]. *)
Definition unfinished {PS} (self : ResourceProviderExecutor) (raw_payload : val)
    (sleep_time : number) (i : nat) (w : world PS) : bool :=
  match loop_attempt self raw_payload sleep_time i w with
  | Some (inr event, _) => bool_decide (Event.status event ≠ SUCCESS)
  | _ => false
  end.

(** The attempt [i+1] returns an event whose [custom_context] is a dict, as
    [ProgressEvent] declares it, and the loop's payload has its
    [callbackContext] when it returns. *)
Definition mergeable {PS} (self : ResourceProviderExecutor) (raw_payload : val)
    (sleep_time : number) (i : nat) (w : world PS) : bool :=
  match loop_attempt self raw_payload sleep_time i w with
  | Some (inr event, w1) =>
      bool_decide (is_Some (dict_at (heap w1) (Event.custom_context event)))
      && bool_decide (is_Some (context_of (heap w1)
                                 (relocate (length (heap w)) raw_payload)))
  | _ => false
  end.

(** ** Delays that [time.sleep] takes

    [in_time t n w]: [time.sleep] takes the delay [t], and at each of the
    next [n] readings of the clock of [w] the reading is not negative and
    the deadline, the reading plus the delay, is below [2^63]. *)
Definition in_time {PS} (t : number) (n : nat) (w : world PS) : Prop :=
  ∃ ns, timeout_of t = inr ns
    ∧ ∀ i, i < n →
        (0 ≤ monotonic w (clock_reads w + i)
         ∧ monotonic w (clock_reads w + i) + ns < 2 ^ 63)%Z.

(** ** Providers that know the caller's objects only through the request

    [above lo v]: the value is not a reference to one of the first [lo]
    objects of the store.  [apart lo h]: the objects of [h] from [lo] on do
    not refer to the objects below [lo]. *)
Definition above (lo : nat) (v : val) : Prop :=
  match v with VRef l => lo ≤ l | _ => True end.

Definition obj_above (lo : nat) (o : obj) : Prop :=
  match o with
  | ODict d => map_Forall (λ _, above lo) d
  | OList xs => Forall (above lo) xs
  end.

Definition apart (lo : nat) (h : store) : Prop :=
  ∀ l o, lo ≤ l → h !! l = Some o → obj_above lo o.

Definition request_above (lo : nat) (request : ResourceRequest) : Prop :=
  above lo (Request._original_payload request)
  ∧ above lo (Request.desired_state request)
  ∧ above lo (Request.logical_resource_id request)
  ∧ above lo (Request.custom_context request).

(** A capability that has no handle of its own on the first [lo] objects:
    given a request that does not refer to them, in a store whose later
    objects do not either, it leaves them as they are, makes no later object
    refer to them and returns an event whose [custom_context] is not one of
    them.  It may write to the objects of its request. *)
Definition confined {PS} (lo : nat) (f : capability PS) : Prop :=
  ∀ ps h request out ps' h',
    lo ≤ length h → apart lo h → request_above lo request →
    f ps h request = (out, ps', h') →
    (∀ l, l < lo → h' !! l = h !! l)
    ∧ apart lo h'
    ∧ ∀ event, out = inr event → above lo (Event.custom_context event).

Definition provider_confined {PS} (lo : nat) (cls : ProviderCls PS) : Prop :=
  confined lo (create cls) ∧ confined lo (update cls) ∧ confined lo (delete cls).

(** ** What the translator reads

    [v[key]] as a partial function of the store, and the values that
    [convert_payload] takes from a payload. *)
Definition field (h : store) (v : val) (key : string) : option val :=
  d ← dict_at h v; d !! key.

Record reads := {
  read_access_key : val;
  read_session_token : val;
  read_secret_key : val;
  read_region : val;
  read_properties : val;
  read_logical_id : val;
  read_context : val;
}.

Definition payload_reads (h : store) (payload : val) : option reads :=
  requestData ← field h payload "requestData";
  callerCredentials ← field h requestData "callerCredentials";
  accessKeyId ← field h callerCredentials "accessKeyId";
  sessionToken ← field h callerCredentials "sessionToken";
  secretAccessKey ← field h callerCredentials "secretAccessKey";
  region ← field h payload "region";
  resourceProperties ← field h requestData "resourceProperties";
  logicalResourceId ← field h requestData "logicalResourceId";
  callbackContext ← field h payload "callbackContext";
  Some {| read_access_key := accessKeyId;
          read_session_token := sessionToken;
          read_secret_key := secretAccessKey;
          read_region := region;
          read_properties := resourceProperties;
          read_logical_id := logicalResourceId;
          read_context := callbackContext |}.

Definition factory_of (r : reads) : ServiceLevelClientFactory :=
  {| aws_access_key_id := read_access_key r;
     aws_session_token := read_session_token r;
     aws_secret_access_key := read_secret_key r;
     client_region_name := read_region r |}.

(** The request built from these values and a token. *)
Definition request_of (stack_name stack_id : string) (r : reads) (token : string)
  : ResourceRequest :=
  {| Request._original_payload := read_properties r;
     Request.aws_client_factory := factory_of r;
     Request.request_token := token;
     Request.stack_name := stack_name;
     Request.stack_id := stack_id;
     Request.account_id := "000000000000";
     Request.region_name := "us-east-1";
     Request.desired_state := read_properties r;
     Request.logical_resource_id := read_logical_id r;
     Request.logger := "abc";
     Request.custom_context := read_context r;
     Request.previous_state := None;
     Request.previous_tags := None;
     Request.tags := ∅ |}.

(** The world after a translation: a client factory was built, a token
    drawn and a logger fetched. *)
Definition translated {PS} (f : ServiceLevelClientFactory) (w : world PS) : world PS :=
  record (CallGetLogger "abc")
    (record (CallUuid4 (uuid_draws w))
       (with_uuid_draws (S (uuid_draws w)) (record (CallConnect f) w))).

(** The action mapping in the words of the specification. *)
Definition capability_for (action : string) : option capability_name :=
  if decide (action = "Add") then Some Create
  else if decide (action = "Modify") then Some Update
  else if decide (action = "Dynamic") then Some Update
  else if decide (action = "Remove") then Some Delete
  else None.

(** ** Requests and stores that differ in one place *)

Definition with_request_token (token : string) (request : ResourceRequest)
  : ResourceRequest :=
  {| Request._original_payload := Request._original_payload request;
     Request.aws_client_factory := Request.aws_client_factory request;
     Request.request_token := token;
     Request.stack_name := Request.stack_name request;
     Request.stack_id := Request.stack_id request;
     Request.account_id := Request.account_id request;
     Request.region_name := Request.region_name request;
     Request.desired_state := Request.desired_state request;
     Request.logical_resource_id := Request.logical_resource_id request;
     Request.logger := Request.logger request;
     Request.custom_context := Request.custom_context request;
     Request.previous_state := Request.previous_state request;
     Request.previous_tags := Request.previous_tags request;
     Request.tags := Request.tags request |}.

(** The store in which [v[key]] is [x]; [setitem] leaves this store when
    [v] is a dict. *)
Definition write (h : store) (v : val) (key : string) (x : val) : store :=
  match v with
  | VRef l =>
      match h !! l with
      | Some (ODict d) => <[l := ODict (<[key := x]> d)]> h
      | _ => h
      end
  | _ => h
  end.

Definition with_client_region (region : val) (request : ResourceRequest)
  : ResourceRequest :=
  {| Request._original_payload := Request._original_payload request;
     Request.aws_client_factory :=
       {| aws_access_key_id := aws_access_key_id (Request.aws_client_factory request);
          aws_session_token := aws_session_token (Request.aws_client_factory request);
          aws_secret_access_key :=
            aws_secret_access_key (Request.aws_client_factory request);
          client_region_name := region |};
     Request.request_token := Request.request_token request;
     Request.stack_name := Request.stack_name request;
     Request.stack_id := Request.stack_id request;
     Request.account_id := Request.account_id request;
     Request.region_name := Request.region_name request;
     Request.desired_state := Request.desired_state request;
     Request.logical_resource_id := Request.logical_resource_id request;
     Request.logger := Request.logger request;
     Request.custom_context := Request.custom_context request;
     Request.previous_state := Request.previous_state request;
     Request.previous_tags := Request.previous_tags request;
     Request.tags := Request.tags request |}.

(** An outcome that is an event, and the event. *)
Definition returns {A} (out : exn + A) : bool :=
  match out with inr _ => true | inl _ => false end.

Definition event_or (e0 : ProgressEvent) (out : exn + ProgressEvent)
  : ProgressEvent :=
  match out with inr e => e | inl _ => e0 end.

(** ** Relations between the worlds of a run *)

Section Relations.

Context {PS : Type}.

Local Abbreviation M := (M PS).
Local Abbreviation world := (world PS).

(** [m] takes every world to one that [R] relates to it, whatever its
    outcome. *)
Definition preserves {A} (R : relation world) (m : M A) : Prop :=
  ∀ w out w', m w = (out, w') → R w w'.

(** The two worlds have seen as many invocations and as many sleeps. *)
Definition same_calls : relation world := λ w w',
  invocations (trace w') = invocations (trace w)
  ∧ sleeps (trace w') = sleeps (trace w).

(** The store, the registry and the providers' state are the same. *)
Definition same_store : relation world := λ w w',
  heap w' = heap w
  ∧ PRIVATE_REGISTRY w' = PRIVATE_REGISTRY w
  ∧ providers_state w' = providers_state w.

(** The clock is the same and has been read as often. *)
Definition same_clock : relation world := λ w w',
  monotonic w' = monotonic w ∧ clock_reads w' = clock_reads w.

(** A relation that every step which only reads the store, draws or calls
    out without invoking a provider or sleeping stays in. *)
Class Harmless (R : relation world) := {
  harmless_preorder :: PreOrder R;
  harmless_record w c :
    is_invoke c = false → is_sleep c = false → R w (record c w);
  harmless_draw w n : R w (with_uuid_draws n w);
}.

(** The store has the first [lo] objects and its later ones do not refer to
    them. *)
Definition settled (lo : nat) (w : world) : Prop :=
  lo ≤ length (heap w) ∧ apart lo (heap w).

(** From a settled world the run gets to a settled world with the same
    registry and the same first [lo] objects. *)
Definition confines (lo : nat) : relation world := λ w w',
  settled lo w →
  settled lo w'
  ∧ PRIVATE_REGISTRY w' = PRIVATE_REGISTRY w
  ∧ ∀ l, l < lo → heap w' !! l = heap w !! l.

End Relations.

(** ** Laws of the monad and of the primitives *)

Section Laws.

Context {PS : Type}.

Local Abbreviation M := (M PS).
Local Abbreviation world := (world PS).
Local Abbreviation same_calls := (same_calls (PS:=PS)).
Local Abbreviation same_store := (same_store (PS:=PS)).
Local Abbreviation same_clock := (same_clock (PS:=PS)).
Local Abbreviation confines := (confines (PS:=PS)).

Lemma bind_inr {A B} (m : M A) (k : A → M B) w a w1 :
  m w = (inr a, w1) → (m ≫= k) w = k a w1.
Proof. intros H. unfold mbind, M_bind. by rewrite H. Qed.

Lemma bind_inl {A B} (m : M A) (k : A → M B) w e w1 :
  m w = (inl e, w1) → (m ≫= k) w = (inl e, w1).
Proof. intros H. unfold mbind, M_bind. by rewrite H. Qed.

Lemma bind_inv {A B} (m : M A) (k : A → M B) w out w' :
  (m ≫= k) w = (out, w') →
  (∃ a w1, m w = (inr a, w1) ∧ k a w1 = (out, w'))
  ∨ (∃ e, m w = (inl e, w') ∧ out = inl e).
Proof.
  unfold mbind, M_bind. destruct (m w) as [[e|a] w1]; intros H.
  - right. exists e. by simplify_eq.
  - left. by exists a, w1.
Qed.

Lemma preserves_ret {A} (R : relation world) `{!Reflexive R} (a : A) :
  preserves R (mret a).
Proof. intros w out w' H. injection H as _ <-. reflexivity. Qed.

Lemma preserves_raise {A} (R : relation world) `{!Reflexive R} e :
  preserves R (raise (A:=A) e).
Proof. intros w out w' H. injection H as _ <-. reflexivity. Qed.

Lemma preserves_bind {A B} (R : relation world) `{!Transitive R}
    (m : M A) (k : A → M B) :
  preserves R m → (∀ a, preserves R (k a)) → preserves R (m ≫= k).
Proof.
  intros Hm Hk w out w' H.
  destruct (bind_inv _ _ _ _ _ H) as [(a & w1 & H1 & H2)|(e & H1 & _)].
  - etrans; [by eapply Hm | by eapply Hk].
  - by eapply Hm.
Qed.

(** *** The calls that are counted *)

Lemma invocations_snoc (t : list (call PS)) c :
  invocations (t ++ [c]) = invocations t + (if is_invoke c then 1 else 0).
Proof.
  unfold invocations. rewrite List.filter_app, length_app. simpl.
  by destruct (is_invoke c).
Qed.

Lemma sleeps_snoc (t : list (call PS)) c :
  sleeps (t ++ [c]) = sleeps t + (if is_sleep c then 1 else 0).
Proof.
  unfold sleeps. rewrite List.filter_app, length_app. simpl.
  by destruct (is_sleep c).
Qed.

#[global] Instance same_calls_refl : Reflexive same_calls.
Proof. by intros w. Qed.

#[global] Instance same_calls_trans : Transitive same_calls.
Proof. intros w1 w2 w3 [H1 H2] [H3 H4]. split; congruence. Qed.

Lemma same_calls_record c w :
  is_invoke c = false → is_sleep c = false → same_calls w (record c w).
Proof.
  intros Hi Hs. split; simpl.
  - rewrite invocations_snoc, Hi. lia.
  - rewrite sleeps_snoc, Hs. lia.
Qed.

#[global] Instance same_store_refl : Reflexive same_store.
Proof. by intros w. Qed.

#[global] Instance same_store_trans : Transitive same_store.
Proof.
  intros w1 w2 w3 (H1 & H2 & H3) (H4 & H5 & H6). repeat split; congruence.
Qed.

#[global] Instance same_calls_harmless : Harmless same_calls.
Proof.
  split.
  - split; apply _.
  - intros w c. apply same_calls_record.
  - by intros w n.
Qed.

#[global] Instance same_store_harmless : Harmless same_store.
Proof.
  split.
  - split; apply _.
  - by intros w c _ _.
  - by intros w n.
Qed.

#[global] Instance same_clock_refl : Reflexive same_clock.
Proof. by intros w. Qed.

#[global] Instance same_clock_trans : Transitive same_clock.
Proof. intros w1 w2 w3 [H1 H2] [H3 H4]. split; congruence. Qed.

#[global] Instance same_clock_harmless : Harmless same_clock.
Proof.
  split.
  - split; apply _.
  - by intros w c _ _.
  - by intros w n.
Qed.

Section Harmless.

Context (R : relation world) `{!Harmless R}.

Lemma preserves_getitem v key : preserves R (getitem v key).
Proof.
  intros w out w' H. unfold getitem in H.
  repeat case_match; simplify_eq; reflexivity.
Qed.

Lemma preserves_mapping v : preserves R (mapping v).
Proof.
  intros w out w' H. unfold mapping in H.
  repeat case_match; simplify_eq; reflexivity.
Qed.

Lemma preserves_connect_to a b c d : preserves R (connect_to a b c d).
Proof. intros w out w' H. injection H as _ <-. by apply harmless_record. Qed.

Lemma preserves_uuid4 : preserves R uuid4.
Proof.
  intros w out w' H. injection H as _ <-.
  etrans; [apply harmless_draw | by apply harmless_record].
Qed.

Lemma preserves_getLogger name : preserves R (getLogger name).
Proof. intros w out w' H. injection H as _ <-. by apply harmless_record. Qed.

Lemma preserves_instantiate cls : preserves R (instantiate cls).
Proof. intros w out w' H. injection H as _ <-. by apply harmless_record. Qed.

Lemma preserves_convert_payload sn sid payload :
  preserves R (convert_payload sn sid payload).
Proof.
  unfold convert_payload.
  repeat first
    [ apply preserves_bind; [apply _| |intros ?]
    | apply preserves_getitem | apply preserves_connect_to
    | apply preserves_uuid4 | apply preserves_getLogger
    | apply preserves_ret; apply _ ].
Qed.

End Harmless.

Lemma new_same_calls o : preserves same_calls (new o).
Proof. intros w out w' H. by injection H as _ <-. Qed.

Lemma deepcopy_same_calls v : preserves same_calls (deepcopy v).
Proof.
  intros w out w' H. injection H as _ <-.
  etrans; [|by apply (same_calls_record (CallDeepcopy v))]. done.
Qed.

(** *** Invocations *)

Lemma invoke_calls c cls request (w : world) out w' :
  invoke c cls request w = (out, w') →
  invocations (trace w') = S (invocations (trace w))
  ∧ sleeps (trace w') = sleeps (trace w).
Proof.
  unfold invoke. intros H.
  destruct (capability_of _ _ _ _ request) as [[o ps] h].
  simplify_eq. simpl. rewrite invocations_snoc, sleeps_snoc. simpl. lia.
Qed.

Lemma invoke_clock c cls request : preserves same_clock (invoke c cls request).
Proof.
  intros w out w' H. unfold invoke in H.
  destruct (capability_of _ _ _ _ request) as [[o ps] h]. by simplify_eq.
Qed.

(** *** One dispatch *)

Lemma execute_action_calls self payload (w : world) out w' :
  execute_action self payload w = (out, w') →
  sleeps (trace w') = sleeps (trace w)
  ∧ ∀ event, out = inr event →
      invocations (trace w') = S (invocations (trace w)).
Proof.
  unfold execute_action. destruct (PRIVATE_REGISTRY w !! _) as [cls|];
    [|intros; by simplify_eq].
  intros H.
  apply bind_inv in H as [(a & w1 & H1 & H)|(e & H1 & ->)]; cycle 1.
  { apply (preserves_getitem same_calls) in H1 as [_ ?]. by split. }
  apply (preserves_getitem same_calls) in H1 as [Hi1 Hs1].
  apply bind_inv in H as [(request & w2 & H2 & H)|(e & H2 & ->)]; cycle 1.
  { apply (preserves_convert_payload same_calls) in H2 as [_ ?].
    split; [congruence|done]. }
  apply (preserves_convert_payload same_calls) in H2 as [Hi2 Hs2].
  apply bind_inv in H as [(provider & w3 & H3 & H)|(e & H3 & ->)]; cycle 1.
  { apply (preserves_instantiate same_calls) in H3 as [_ ?].
    split; [congruence|done]. }
  apply (preserves_instantiate same_calls) in H3 as [Hi3 Hs3].
  repeat case_decide;
    try (apply invoke_calls in H as [Hi Hs]; split; [|intros _ _]; congruence).
  injection H as <- <-. split; [congruence|done].
Qed.

(** A dispatch does not read the clock. *)
Lemma execute_action_clock self payload :
  preserves same_clock (execute_action self payload).
Proof.
  intros w out w'. unfold execute_action.
  destruct (PRIVATE_REGISTRY w !! _) as [cls|]; [|intros; by simplify_eq].
  revert w out w'.
  match goal with |- ∀ w out w', ?m w = _ → _ => change (preserves same_clock m) end.
  apply preserves_bind; [apply _|apply preserves_getitem; apply _|intros change_type].
  apply preserves_bind;
    [apply _|apply preserves_convert_payload; apply _|intros request].
  apply preserves_bind; [apply _|apply preserves_instantiate; apply _|intros provider].
  repeat case_decide; try apply invoke_clock. apply preserves_raise; apply _.
Qed.

(** *** The merge and the sleep *)

Lemma int64_small z : (- 2 ^ 63 ≤ z < 2 ^ 63)%Z → int64 z = z.
Proof. intros Hz. unfold int64. rewrite Z.mod_small; lia. Qed.

Lemma timeout_of_nonneg t ns : timeout_of t = inr ns → (0 ≤ ns)%Z.
Proof.
  unfold timeout_of. destruct (nanoseconds t) as [e|n]; [done|].
  destruct (Z.ltb_spec n 0) as [Hn|Hn]; [done|]. intros H. by simplify_eq.
Qed.

(** The sleep goes through when [time.sleep] takes the delay and the clock
    leaves room for the deadline. *)
Lemma sleep_run t ns (w : world) :
  timeout_of t = inr ns →
  (0 ≤ monotonic w (clock_reads w)
   ∧ monotonic w (clock_reads w) + ns < 2 ^ 63)%Z →
  sleep t w
  = (inr (), record (CallSleep t) (with_clock_reads (S (clock_reads w)) w)).
Proof.
  intros Ht [Hnow Hroom]. pose proof (timeout_of_nonneg _ _ Ht) as Hns.
  unfold sleep. rewrite Ht, int64_small by lia.
  by rewrite (proj2 (Z.ltb_ge _ 0)) by lia.
Qed.

(** A sleep that returns has read the clock once. *)
Lemma sleep_inv t (w : world) u w' :
  sleep t w = (inr u, w') →
  w' = record (CallSleep t) (with_clock_reads (S (clock_reads w)) w).
Proof.
  unfold sleep. destruct (timeout_of t) as [e|ns]; [done|].
  destruct (_ <? 0)%Z; intros H; by simplify_eq.
Qed.

(** However a sleep ends, it leaves the store, the providers, the registry
    and the draws alone; the trace gains the sleep when it returns. *)
Lemma sleep_world t (w : world) out w' :
  sleep t w = (out, w') →
  heap w' = heap w
  ∧ providers_state w' = providers_state w
  ∧ PRIVATE_REGISTRY w' = PRIVATE_REGISTRY w
  ∧ uuid_draws w' = uuid_draws w
  ∧ monotonic w' = monotonic w
  ∧ ((∃ e, out = inl e ∧ trace w' = trace w)
     ∨ (out = inr () ∧ trace w' = trace w ++ [CallSleep t])).
Proof.
  unfold sleep. destruct (timeout_of t) as [e|ns].
  { intros H. simplify_eq. eauto 10. }
  destruct (_ <? 0)%Z; intros H; simplify_eq; simpl; eauto 10.
Qed.

Lemma setitem_same_calls v key x : preserves same_calls (setitem v key x).
Proof.
  intros w out w' H. unfold setitem in H.
  repeat case_match; simplify_eq; by split.
Qed.

Lemma carry_context_calls payload event t (w : world) u w' :
  carry_context payload event t w = (inr u, w') →
  invocations (trace w') = invocations (trace w)
  ∧ sleeps (trace w') = S (sleeps (trace w)).
Proof.
  unfold carry_context. intros H.
  apply bind_inv in H as [(c & w1 & H1 & H)|(e & _ & ?)]; [|done].
  apply (preserves_getitem same_calls) in H1 as [Hi1 Hs1].
  apply bind_inv in H as [(d1 & w2 & H2 & H)|(e & _ & ?)]; [|done].
  apply (preserves_mapping same_calls) in H2 as [Hi2 Hs2].
  apply bind_inv in H as [(d2 & w3 & H3 & H)|(e & _ & ?)]; [|done].
  apply (preserves_mapping same_calls) in H3 as [Hi3 Hs3].
  apply bind_inv in H as [(r & w4 & H4 & H)|(e & _ & ?)]; [|done].
  apply new_same_calls in H4 as [Hi4 Hs4].
  apply bind_inv in H as [(? & w5 & H5 & H)|(e & _ & ?)]; [|done].
  apply setitem_same_calls in H5 as [Hi5 Hs5].
  apply sleep_inv in H as ->. simpl.
  rewrite invocations_snoc, sleeps_snoc. simpl. lia.
Qed.

Lemma new_clock o : preserves same_clock (new o).
Proof. intros w out w' H. by injection H as _ <-. Qed.

Lemma setitem_clock v key x : preserves same_clock (setitem v key x).
Proof.
  intros w out w' H. unfold setitem in H.
  repeat case_match; simplify_eq; by split.
Qed.

(** A turn that gets through the merge and the sleep has read the clock
    once. *)
Lemma carry_context_clock payload event t (w : world) u w' :
  carry_context payload event t w = (inr u, w') →
  monotonic w' = monotonic w ∧ clock_reads w' = S (clock_reads w).
Proof.
  unfold carry_context. intros H.
  apply bind_inv in H as [(c & w1 & H1 & H)|(e & _ & ?)]; [|done].
  apply (preserves_getitem same_clock) in H1 as [Hm1 Hr1].
  apply bind_inv in H as [(d1 & w2 & H2 & H)|(e & _ & ?)]; [|done].
  apply (preserves_mapping same_clock) in H2 as [Hm2 Hr2].
  apply bind_inv in H as [(d2 & w3 & H3 & H)|(e & _ & ?)]; [|done].
  apply (preserves_mapping same_clock) in H3 as [Hm3 Hr3].
  apply bind_inv in H as [(r & w4 & H4 & H)|(e & _ & ?)]; [|done].
  apply new_clock in H4 as [Hm4 Hr4].
  apply bind_inv in H as [(? & w5 & H5 & H)|(e & _ & ?)]; [|done].
  apply setitem_clock in H5 as [Hm5 Hr5].
  apply sleep_inv in H as ->. simpl. split; congruence.
Qed.

(** The merge goes through when the payload has its context and the event
    brings a dict, and the sleep when [time.sleep] takes the delay and the
    clock leaves room for the deadline; the payload then has the merged
    context, in a new dict. *)
Lemma carry_context_run payload event t ns (w : world) previous returned :
  context_of (heap w) payload = Some previous →
  dict_at (heap w) (Event.custom_context event) = Some returned →
  timeout_of t = inr ns →
  (0 ≤ monotonic w (clock_reads w)
   ∧ monotonic w (clock_reads w) + ns < 2 ^ 63)%Z →
  ∃ w', carry_context payload event t w = (inr (), w')
        ∧ context_of (heap w') payload = Some (returned ∪ previous)
        ∧ (∃ d, dict_at (heap w') payload
                = Some (<["callbackContext" := VRef (length (heap w))]> d)
                ∧ dict_at (heap w) payload = Some d)
        ∧ heap w' !! length (heap w) = Some (ODict (returned ∪ previous))
        ∧ trace w' = trace w ++ [CallSleep t]
        ∧ providers_state w' = providers_state w
        ∧ PRIVATE_REGISTRY w' = PRIVATE_REGISTRY w
        ∧ uuid_draws w' = uuid_draws w.
Proof.
  intros Hctx Hret Ht Hroom. unfold context_of in Hctx.
  destruct (dict_at (heap w) payload) as [d|] eqn:Hd; [|done]. simpl in Hctx.
  destruct (d !! "callbackContext") as [c|] eqn:Hc; [|done]. simpl in Hctx.
  destruct payload as [| | | |p]; try done. simpl in Hd.
  destruct (heap w !! p) as [[d'|]|] eqn:Hp; simplify_eq.
  assert (p < length (heap w)) as Hlt by (by eapply lookup_lt_Some).
  eexists. split.
  { unfold carry_context.
    erewrite bind_inr; [|unfold getitem; by rewrite Hp, Hc].
    erewrite bind_inr; [|unfold mapping; by rewrite Hctx].
    erewrite bind_inr; [|unfold mapping; by rewrite Hret].
    erewrite bind_inr; [|done].
    erewrite bind_inr; cycle 1.
    { unfold setitem; simpl. rewrite lookup_app_l by done. by rewrite Hp. }
    by erewrite sleep_run. }
  simpl. repeat split; try done.
  - unfold context_of. simpl.
    rewrite list_lookup_insert_eq by (rewrite length_app; lia). simpl.
    rewrite lookup_insert_eq. simpl.
    rewrite list_lookup_insert_ne by lia.
    by rewrite lookup_app_r, Nat.sub_diag by lia.
  - exists d. split; [|done].
    by rewrite list_lookup_insert_eq by (rewrite length_app; lia).
  - rewrite list_lookup_insert_ne by lia.
    by rewrite lookup_app_r, Nat.sub_diag by lia.
Qed.

(** *** The turns of the loop *)

Lemma deploy_turns_step self payload t n (w : world) event w1 u w2 :
  execute_action self payload w = (inr event, w1) →
  Event.status event ≠ SUCCESS →
  carry_context payload event t w1 = (inr u, w2) →
  deploy_turns self payload t (S n) w = deploy_turns self payload t n w2.
Proof.
  intros He Hs Hc. simpl. erewrite bind_inr by done.
  rewrite decide_False by done. by erewrite bind_inr.
Qed.

Lemma attempt_step self payload t i (w : world) event w1 u w2 :
  execute_action self payload w = (inr event, w1) →
  Event.status event ≠ SUCCESS →
  carry_context payload event t w1 = (inr u, w2) →
  attempt self payload t (S i) w = attempt self payload t i w2.
Proof. intros He Hs Hc. simpl. by rewrite He, decide_False, Hc. Qed.

Lemma attempt_inv self payload t i (w : world) o :
  attempt self payload t (S i) w = Some o →
  ∃ event w1 u w2,
    execute_action self payload w = (inr event, w1)
    ∧ Event.status event ≠ SUCCESS
    ∧ carry_context payload event t w1 = (inr u, w2)
    ∧ attempt self payload t i w2 = Some o.
Proof.
  simpl. destruct (execute_action self payload w) as [[e|event] w1]; [done|].
  case_decide; [done|].
  destruct (carry_context payload event t w1) as [[e|u] w2] eqn:Hc; [done|].
  intros Ha. by exists event, w1, u, w2.
Qed.

(** An attempt is made only after attempts that returned events other than
    [SUCCESS]. *)
Lemma attempt_earlier self payload t k :
  ∀ (w : world) o,
    attempt self payload t k w = Some o →
    ∀ i, i < k →
      ∃ event w1,
        attempt self payload t i w = Some (inr event, w1)
        ∧ Event.status event ≠ SUCCESS.
Proof.
  induction k as [|k IH]; intros w o Ha i Hi; [lia|].
  apply attempt_inv in Ha as (ev & w1 & u & w2 & He & Hns & Hc & Ha).
  destruct i as [|i].
  - exists ev, w1. simpl. by rewrite He.
  - erewrite attempt_step by done. eapply IH; [done|lia].
Qed.



Lemma deploy_turns_succeeds self payload t k :
  ∀ n (w : world) event w',
    k < n →
    attempt self payload t k w = Some (inr event, w') →
    Event.status event = SUCCESS →
    deploy_turns self payload t n w = (inr event, w')
    ∧ invocations (trace w') = invocations (trace w) + S k
    ∧ sleeps (trace w') = sleeps (trace w) + k.
Proof.
  induction k as [|k IH]; intros n w event w' Hn Ha Hs.
  - destruct n as [|n]; [lia|]. simpl in Ha. injection Ha as Ha.
    destruct (execute_action_calls _ _ _ _ _ Ha) as [Hsl Hin].
    split; [|split; [rewrite (Hin event eq_refl)|]; lia].
    simpl. erewrite bind_inr by done. by rewrite decide_True.
  - destruct n as [|n]; [lia|].
    apply attempt_inv in Ha as (ev & w1 & u & w2 & He & Hns & Hc & Ha).
    destruct (IH n w2 event w') as (Hrun & Hin & Hsl); [lia|done|done|].
    destruct (execute_action_calls _ _ _ _ _ He) as [Hsl1 Hin1].
    destruct (carry_context_calls _ _ _ _ _ _ Hc) as [Hin2 Hsl2].
    split; [|split].
    + by erewrite deploy_turns_step.
    + rewrite Hin, Hin2, (Hin1 ev eq_refl). lia.
    + rewrite Hsl, Hsl2, Hsl1. lia.
Qed.

Lemma deploy_turns_times_out self payload t :
  ∀ n (w : world),
    in_time t n w →
    (∀ i, i < n →
       ∃ event w1,
         attempt self payload t i w = Some (inr event, w1)
         ∧ Event.status event ≠ SUCCESS
         ∧ is_Some (dict_at (heap w1) (Event.custom_context event))
         ∧ is_Some (context_of (heap w1) payload)) →
    ∃ w',
      deploy_turns self payload t n w
      = (inl (TimeoutError "Could not perform deploy loop action"), w')
      ∧ invocations (trace w') = invocations (trace w) + n
      ∧ sleeps (trace w') = sleeps (trace w) + n.
Proof.
  induction n as [|n IH]; intros w (ns & Ht & Hroom) Hall.
  - exists w. simpl. split; [done|lia].
  - destruct (Hall 0) as (event & w1 & Ha & Hns & [ret Hret] & [prev Hprev]);
      [lia|].
    simpl in Ha. injection Ha as He.
    destruct (execute_action_clock _ _ _ _ _ He) as [Hm1 Hr1].
    destruct (carry_context_run payload event t ns w1 prev ret)
      as (w2 & Hc & _); [done..| |].
    { rewrite Hm1, Hr1. specialize (Hroom 0). rewrite Nat.add_0_r in Hroom.
      apply Hroom. lia. }
    destruct (carry_context_clock _ _ _ _ _ _ Hc) as [Hm2 Hr2].
    destruct (IH w2) as (w' & Hrun & Hin & Hsl).
    { exists ns. split; [done|]. intros i Hi. rewrite Hm2, Hr2, Hm1, Hr1.
      replace (S (clock_reads w) + i) with (clock_reads w + S i) by lia.
      apply Hroom. lia. }
    { intros i Hi. destruct (Hall (S i)) as (ev & wi & Ha & Hrest); [lia|].
      erewrite attempt_step in Ha by done. by exists ev, wi. }
    destruct (execute_action_calls _ _ _ _ _ He) as [Hsl1 Hin1].
    destruct (carry_context_calls _ _ _ _ _ _ Hc) as [Hin2 Hsl2].
    exists w'. split; [|split].
    + by erewrite deploy_turns_step.
    + rewrite Hin, Hin2, (Hin1 event eq_refl). lia.
    + rewrite Hsl, Hsl2, Hsl1. lia.
Qed.

(** *** The translator on a typed payload *)

Lemma getitem_field v key x (w : world) :
  field (heap w) v key = Some x → getitem v key w = (inr x, w).
Proof.
  unfold field, getitem, dict_at. intros H.
  destruct v as [| | | |l]; try done.
  destruct (heap w !! l) as [[d|]|]; try done. simpl in H. by rewrite H.
Qed.

Lemma convert_payload_run sn sid payload (w : world) r :
  payload_reads (heap w) payload = Some r →
  convert_payload sn sid payload w
  = (inr (request_of sn sid r (uuid_source w (uuid_draws w))),
     translated (factory_of r) w).
Proof.
  unfold payload_reads. intros H.
  destruct (field (heap w) payload "requestData") as [rd|] eqn:Hrd; [|done].
  simpl in H.
  destruct (field (heap w) rd "callerCredentials") as [cc|] eqn:Hcc; [|done].
  simpl in H.
  destruct (field (heap w) cc "accessKeyId") as [ak|] eqn:Hak; [|done].
  destruct (field (heap w) cc "sessionToken") as [st|] eqn:Hst; [|done].
  destruct (field (heap w) cc "secretAccessKey") as [sk|] eqn:Hsk; [|done].
  destruct (field (heap w) payload "region") as [rg|] eqn:Hrg; [|done].
  destruct (field (heap w) rd "resourceProperties") as [pr|] eqn:Hpr; [|done].
  destruct (field (heap w) rd "logicalResourceId") as [li|] eqn:Hli; [|done].
  destruct (field (heap w) payload "callbackContext") as [cx|] eqn:Hcx; [|done].
  simpl in H. injection H as <-.
  unfold convert_payload.
  do 10 (erewrite bind_inr by (by apply getitem_field)).
  erewrite bind_inr by done.
  do 2 (erewrite bind_inr by (by apply getitem_field)).
  erewrite bind_inr by done.
  do 2 (erewrite bind_inr by (by apply getitem_field)).
  erewrite bind_inr by done.
  erewrite bind_inr by (by apply getitem_field).
  done.
Qed.

Lemma is_Credentials_fields h v :
  is_Credentials h v = true →
  ∃ ak sk st, field h v "accessKeyId" = Some ak
    ∧ field h v "secretAccessKey" = Some sk
    ∧ field h v "sessionToken" = Some st.
Proof.
  unfold is_Credentials, field, has_str.
  destruct (dict_at h v) as [d|]; [|done]. simpl.
  destruct (d !! "accessKeyId") as [ak|]; [|done].
  destruct (d !! "secretAccessKey") as [sk|]; [|by rewrite andb_false_r].
  destruct (d !! "sessionToken") as [st|]; [|by rewrite andb_false_r].
  intros _. by exists ak, sk, st.
Qed.

Lemma field_dict h v d key : dict_at h v = Some d → field h v key = d !! key.
Proof. unfold field. by intros ->. Qed.

Lemma has_str_lookup d key :
  has_str d key = true → ∃ s, d !! key = Some (VStr s).
Proof.
  unfold has_str. destruct (d !! key) as [[| | |s|]|]; try done. by exists s.
Qed.

Lemma has_key_lookup d key : has_key d key = true → ∃ x, d !! key = Some x.
Proof. unfold has_key. destruct (d !! key) as [x|]; [by exists x|done]. Qed.

Lemma typed_payload_reads h payload :
  is_ResourceProviderPayload h payload = true →
  (∃ r, payload_reads h payload = Some r)
  ∧ (∃ action, field h payload "action" = Some (VStr action)).
Proof.
  unfold is_ResourceProviderPayload.
  destruct (dict_at h payload) as [d|] eqn:Hd; [|done].
  rewrite !andb_true_iff.
  intros ((((((((Hctx & _) & Hrd) & _) & _) & _) & _) & Hrg) & Hact).
  destruct (d !! "requestData") as [rd|] eqn:Erd; [|done].
  unfold is_ResourceProviderPayloadRequestData in Hrd.
  destruct (dict_at h rd) as [drd|] eqn:Hdrd; [|done].
  rewrite !andb_true_iff in Hrd.
  destruct Hrd as ((((((((Hli & Hpr) & _) & Hcc) & _) & _) & _) & _) & _).
  destruct (drd !! "callerCredentials") as [cc|] eqn:Ecc; [|done].
  apply is_Credentials_fields in Hcc as (ak & sk & st & Hak & Hsk & Hst).
  apply has_str_lookup in Hrg as [rg Erg], Hli as [li Eli], Hact as [a Ea].
  apply has_key_lookup in Hpr as [pr Epr].
  unfold has_dict in Hctx.
  destruct (d !! "callbackContext") as [cx|] eqn:Ecx; [|done].
  split; [|exists a; by rewrite (field_dict _ _ _ _ Hd)].
  unfold payload_reads.
  rewrite !(field_dict _ _ _ _ Hd), Erd. simpl.
  rewrite !(field_dict _ _ _ _ Hdrd), Ecc. simpl.
  rewrite Hak, Hst, Hsk, Erg, Epr, Eli, Ecx. simpl. by eexists.
Qed.

(** *** The dispatch on a registered type *)

Lemma execute_action_run self payload (w : world) cls r action :
  PRIVATE_REGISTRY w !! resource_type self = Some cls →
  payload_reads (heap w) payload = Some r →
  field (heap w) payload "action" = Some action →
  let request :=
    request_of (stack_name self) (stack_id self) r (uuid_source w (uuid_draws w)) in
  let w0 := record (CallInstantiate cls) (translated (factory_of r) w) in
  execute_action self payload w
  = if decide (action = VStr "Add") then invoke Create cls request w0
    else if decide (action = VStr "Dynamic" ∨ action = VStr "Modify")
         then invoke Update cls request w0
    else if decide (action = VStr "Remove") then invoke Delete cls request w0
    else (inl (NotImplementedError (Some action)), w0).
Proof.
  intros Hreg Hr Ha. simpl. unfold execute_action. rewrite Hreg.
  erewrite bind_inr by (by apply getitem_field).
  erewrite bind_inr by (by apply convert_payload_run).
  erewrite bind_inr by done.
  by repeat case_decide.
Qed.

(** *** What a run does to the objects of the caller *)

Lemma getitem_inv v key (w : world) out w' :
  getitem v key w = (out, w') →
  w' = w ∧ ∀ x, out = inr x → field (heap w) v key = Some x.
Proof.
  unfold getitem, field, dict_at. intros H.
  repeat case_match; simplify_eq; split; try done; intros; by simplify_eq.
Qed.

Lemma mapping_inv v (w : world) out w' :
  mapping v w = (out, w') →
  w' = w ∧ ∀ d, out = inr d → dict_at (heap w) v = Some d.
Proof.
  unfold mapping. intros H.
  case_match; simplify_eq; split; try done; intros; by simplify_eq.
Qed.

Lemma convert_payload_inv sn sid payload (w : world) request w' :
  convert_payload sn sid payload w = (inr request, w') →
  ∃ r, payload_reads (heap w) payload = Some r.
Proof.
  unfold convert_payload, payload_reads. intros H.
  repeat
    (let Hstep := fresh "Hstep" in
     apply bind_inv in H as [(? & ? & Hstep & H)|(? & _ & ?)]; [|done];
     first
       [ apply getitem_inv in Hstep as [-> Hstep];
         specialize (Hstep _ eq_refl); simpl in Hstep
       | injection Hstep as <- <- ]).
  simplify_eq.
  repeat match goal with
         | Hf : field _ _ _ = Some _ |- _ => rewrite Hf; clear Hf; simpl
         end.
  by eexists.
Qed.

Lemma field_above lo h v key x :
  apart lo h → above lo v → field h v key = Some x → above lo x.
Proof.
  unfold field, dict_at. intros Hh Hv H.
  destruct v as [| | | |l]; try done.
  destruct (h !! l) as [[d|]|] eqn:Hl; try done. simpl in *.
  by apply (Hh l (ODict d) Hv Hl key x).
Qed.

Lemma dict_above lo h v d :
  apart lo h → above lo v → dict_at h v = Some d → map_Forall (λ _, above lo) d.
Proof.
  unfold dict_at. intros Hh Hv H.
  destruct v as [| | | |l]; try done.
  destruct (h !! l) as [[d'|]|] eqn:Hl; simplify_eq.
  by apply (Hh l (ODict d) Hv Hl).
Qed.

Lemma reads_above lo h payload r sn sid token :
  apart lo h → above lo payload → payload_reads h payload = Some r →
  request_above lo (request_of sn sid r token).
Proof.
  unfold payload_reads. intros Hh Hp H.
  destruct (field h payload "requestData") as [rd|] eqn:Hrd; [|done].
  simpl in H.
  destruct (field h rd "callerCredentials") as [cc|]; [|done]. simpl in H.
  destruct (field h cc "accessKeyId") as [ak|]; [|done].
  destruct (field h cc "sessionToken") as [st|]; [|done].
  destruct (field h cc "secretAccessKey") as [sk|]; [|done].
  destruct (field h payload "region") as [rg|]; [|done].
  destruct (field h rd "resourceProperties") as [pr|] eqn:Hpr; [|done].
  destruct (field h rd "logicalResourceId") as [li|] eqn:Hli; [|done].
  destruct (field h payload "callbackContext") as [cx|] eqn:Hcx; [|done].
  simpl in H. injection H as <-.
  assert (above lo rd) as Hrd'
    by (by apply (field_above lo h payload "requestData")).
  repeat split; simpl.
  - by apply (field_above lo h rd "resourceProperties").
  - by apply (field_above lo h rd "resourceProperties").
  - by apply (field_above lo h rd "logicalResourceId").
  - by apply (field_above lo h payload "callbackContext").
Qed.

Lemma above_relocate n v : above n (relocate n v).
Proof. destruct v; simpl; lia. Qed.

Lemma apart_app lo h o : apart lo h → obj_above lo o → apart lo (h ++ [o]).
Proof.
  intros Hh Ho l o' Hl H.
  apply lookup_app_Some in H as [H|[_ H]]; [by apply (Hh l o')|].
  apply list_lookup_singleton_Some in H as [_ <-]. done.
Qed.

Lemma apart_insert lo h q o : apart lo h → obj_above lo o → apart lo (<[q := o]> h).
Proof.
  intros Hh Ho l o' Hl H.
  apply list_lookup_insert_Some in H as [(-> & <- & _)|[_ H]]; [done|].
  by apply (Hh l o').
Qed.

Lemma apart_deepcopy (h : store) :
  apart (length h) (h ++ (relocate_obj (length h) <$> h)).
Proof.
  intros l o Hl H.
  apply lookup_app_Some in H as [H|[_ H]].
  { apply lookup_lt_Some in H. lia. }
  rewrite list_lookup_fmap in H.
  destruct (h !! (l - length h)) as [o'|]; [|done].
  injection H as <-. destruct o' as [d|xs]; simpl.
  - intros key x Hx. rewrite lookup_fmap in Hx.
    destruct (d !! key) as [y|]; [|done]. injection Hx as <-.
    apply above_relocate.
  - apply Forall_fmap, Forall_true. intros x. apply above_relocate.
Qed.

#[global] Instance confines_refl lo : Reflexive (confines lo).
Proof. by intros w. Qed.

#[global] Instance confines_trans lo : Transitive (confines lo).
Proof.
  intros w1 w2 w3 H1 H2 Hs.
  destruct (H1 Hs) as (Hs2 & Hr1 & E1). destruct (H2 Hs2) as (Hs3 & Hr2 & E2).
  split; [done|]. split; [congruence|]. intros l Hl. rewrite E2, E1; auto.
Qed.

Lemma same_store_confines lo (w w' : world) : same_store w w' → confines lo w w'.
Proof.
  intros (Hh & Hr & _) [Hlen Hap]. unfold settled. rewrite Hh. by repeat split.
Qed.

Lemma invoke_confines lo c cls request (w : world) out w' :
  provider_confined lo cls → request_above lo request →
  invoke c cls request w = (out, w') →
  confines lo w w'
  ∧ (settled lo w → ∀ event, out = inr event → above lo (Event.custom_context event)).
Proof.
  intros (Hc & Hu & Hd) Hreq H. unfold invoke in H.
  destruct (capability_of _ _ _ _ request) as [[o ps] h] eqn:E.
  unfold capability_of in E. simplify_eq. simpl in *.
  assert (settled lo w →
          (∀ l, l < lo → h !! l = heap w !! l) ∧ apart lo h
          ∧ ∀ event, out = inr event → above lo (Event.custom_context event))
    as Hcall.
  { intros [Hlen Hap]. destruct c; [eapply Hc|eapply Hu|eapply Hd]; eauto. }
  split; [|intros Hs; by apply Hcall].
  intros Hs. destruct (Hcall Hs) as (Hframe & Hap' & _).
  split; [|done]. split; [|done]. simpl.
  destruct Hs as [Hlen _]. destruct lo as [|lo]; [lia|].
  assert (is_Some (h !! lo)) as Hsome.
  { rewrite Hframe by lia. apply lookup_lt_is_Some. lia. }
  apply lookup_lt_is_Some in Hsome. lia.
Qed.

Lemma execute_action_confines lo self payload (w : world) out w' :
  above lo payload →
  (∀ cls, PRIVATE_REGISTRY w !! resource_type self = Some cls →
          provider_confined lo cls) →
  execute_action self payload w = (out, w') →
  confines lo w w'
  ∧ (settled lo w → ∀ event, out = inr event → above lo (Event.custom_context event)).
Proof.
  intros Hp Hreg. unfold execute_action.
  destruct (PRIVATE_REGISTRY w !! _) as [cls|]; [|intros; by simplify_eq].
  specialize (Hreg cls eq_refl). intros H.
  apply bind_inv in H as [(a & w1 & H1 & H)|(e & H1 & ->)]; cycle 1.
  { apply getitem_inv in H1 as [-> _]. by split. }
  apply getitem_inv in H1 as [-> _].
  apply bind_inv in H as [(request & w2 & H2 & H)|(e & H2 & ->)]; cycle 1.
  { apply (preserves_convert_payload same_store) in H2.
    split; [by apply same_store_confines|done]. }
  destruct (convert_payload_inv _ _ _ _ _ _ H2) as [r Hr].
  rewrite (convert_payload_run _ _ _ _ _ Hr) in H2. injection H2 as <- <-.
  apply bind_inv in H as [(provider & w3 & H3 & H)|(e & H3 & ->)]; [|done].
  injection H3 as <- <-.
  set (w3 := record _ _) in H.
  assert (same_store w w3) as Hsame by done.
  assert (settled lo w → request_above lo
            (request_of (stack_name self) (stack_id self) r
               (uuid_source w (uuid_draws w)))) as Hreq.
  { intros [_ Hap]. by eapply reads_above. }
  repeat case_decide; try (injection H as <- <-; split;
                           [by apply same_store_confines|done]).
  all: split;
    [ intros Hs; eapply (invoke_confines lo) in H as [H _]; [|done|by apply Hreq];
      by apply H
    | intros Hs; eapply (invoke_confines lo) in H as [_ H]; [|done|by apply Hreq];
      by apply H ].
Qed.

Lemma carry_context_confines lo payload event t (w : world) out w' :
  above lo payload → above lo (Event.custom_context event) →
  carry_context payload event t w = (out, w') → confines lo w w'.
Proof.
  intros Hp Hev H Hs. destruct Hs as [Hlen Hap].
  assert (settled lo w ∧ PRIVATE_REGISTRY w = PRIVATE_REGISTRY w
          ∧ ∀ l, l < lo → heap w !! l = heap w !! l) as Hsame by done.
  unfold carry_context in H.
  apply bind_inv in H as [(c & w1 & H1 & H)|(e & H1 & ->)]; cycle 1.
  { by apply getitem_inv in H1 as [-> _]. }
  apply getitem_inv in H1 as [-> Hc]. specialize (Hc _ eq_refl).
  apply bind_inv in H as [(d1 & w1 & H1 & H)|(e & H1 & ->)]; cycle 1.
  { by apply mapping_inv in H1 as [-> _]. }
  apply mapping_inv in H1 as [-> Hd1]. specialize (Hd1 _ eq_refl).
  apply bind_inv in H as [(d2 & w1 & H1 & H)|(e & H1 & ->)]; cycle 1.
  { by apply mapping_inv in H1 as [-> _]. }
  apply mapping_inv in H1 as [-> Hd2]. specialize (Hd2 _ eq_refl).
  apply bind_inv in H as [(r & w1 & H1 & H)|(e & H1 & ->)]; [|done].
  injection H1 as <- <-.
  assert (obj_above lo (ODict (d2 ∪ d1))) as Hnew.
  { apply map_Forall_union_2.
    - by apply (dict_above lo (heap w) (Event.custom_context event)).
    - apply (dict_above lo (heap w) c); [done| |done].
      by apply (field_above lo (heap w) payload "callbackContext"). }
  assert (apart lo (heap w ++ [ODict (d2 ∪ d1)])) as Hap1 by (by apply apart_app).
  assert (settled lo (with_heap (heap w ++ [ODict (d2 ∪ d1)]) w)
          ∧ PRIVATE_REGISTRY w = PRIVATE_REGISTRY w
          ∧ ∀ l, l < lo → (heap w ++ [ODict (d2 ∪ d1)]) !! l = heap w !! l)
    as Hmid.
  { split; [split; simpl; [rewrite length_app; lia|done]|].
    split; [done|]. intros l Hl. apply lookup_app_l. lia. }
  apply bind_inv in H as [(u & w1 & H1 & H)|(e & H1 & ->)]; cycle 1.
  { unfold setitem in H1. repeat case_match; by simplify_eq. }
  unfold setitem in H1. destruct payload as [| | | |q]; try done.
  simpl in H1.
  destruct ((heap w ++ [ODict (d2 ∪ d1)]) !! q) as [[d|]|] eqn:Hq; try done.
  injection H1 as _ <-.
  assert (settled lo
            (with_heap
               (<[q := ODict (<["callbackContext" := VRef (length (heap w))]> d)]>
                  (heap w ++ [ODict (d2 ∪ d1)]))
               (with_heap (heap w ++ [ODict (d2 ∪ d1)]) w))) as Hset.
  { split; simpl.
    - rewrite length_insert, length_app. lia.
    - apply apart_insert; [done|]. simpl.
      apply map_Forall_insert_2; [done|]. by apply (Hap1 q (ODict d) Hp Hq). }
  assert (∀ l, l < lo →
            <[q := ODict (<["callbackContext" := VRef (length (heap w))]> d)]>
              (heap w ++ [ODict (d2 ∪ d1)]) !! l = heap w !! l) as Hfr.
  { intros l Hl. simpl in Hp. rewrite list_lookup_insert_ne by lia.
    apply lookup_app_l. lia. }
  apply sleep_world in H as (Hh & _ & Hr & _).
  split; [|split].
  - unfold settled. rewrite Hh. exact Hset.
  - by rewrite Hr.
  - intros l Hl. rewrite Hh. by apply Hfr.
Qed.

Lemma deploy_turns_confines lo self payload t :
  above lo payload →
  ∀ n (w : world) out w',
    (∀ cls, PRIVATE_REGISTRY w !! resource_type self = Some cls →
            provider_confined lo cls) →
    settled lo w →
    deploy_turns self payload t n w = (out, w') →
    settled lo w' ∧ ∀ l, l < lo → heap w' !! l = heap w !! l.
Proof.
  intros Hp. induction n as [|n IH]; intros w out w' Hreg Hs H.
  - injection H as _ <-. done.
  - simpl in H.
    apply bind_inv in H as [(event & w1 & He & H)|(e & He & _)]; cycle 1.
    { eapply execute_action_confines in He as [He _]; [|done..].
      destruct (He Hs) as (? & _ & ?). done. }
    eapply execute_action_confines in He as [He Hev]; [|done..].
    destruct (He Hs) as (Hs1 & Hr1 & E1).
    specialize (Hev Hs event eq_refl).
    case_decide.
    { injection H as _ <-. done. }
    apply bind_inv in H as [(u & w2 & Hc & H)|(e & Hc & _)]; cycle 1.
    { eapply carry_context_confines in Hc; [|done..].
      destruct (Hc Hs1) as (? & _ & E2). split; [done|].
      intros l Hl. rewrite E2, E1; auto. }
    eapply carry_context_confines in Hc; [|done..].
    destruct (Hc Hs1) as (Hs2 & Hr2 & E2).
    destruct (IH w2 out w') as (Hs3 & E3); [|done..|].
    { rewrite Hr2, Hr1. done. }
    split; [done|]. intros l Hl. rewrite E3, E2, E1; auto.
Qed.

End Laws.

(** ** The deploy loop *)

Lemma deepcopy_run {PS} raw_payload (w : world PS) :
  deepcopy raw_payload w
  = (inr (relocate (length (heap w)) raw_payload),
     record (CallDeepcopy raw_payload)
       (with_heap (heap w ++ (relocate_obj (length (heap w)) <$> heap w)) w)).
Proof. done. Qed.

Lemma deepcopy_calls {PS} raw_payload (w : world PS) payload w0 :
  deepcopy raw_payload w = (inr payload, w0) →
  invocations (trace w0) = invocations (trace w)
  ∧ sleeps (trace w0) = sleeps (trace w).
Proof. intros H. by apply deepcopy_same_calls in H. Qed.

Lemma below_forallb (P : nat → bool) (n : nat) :
  forallb P (seq 0 n) = true → ∀ i, i < n → P i = true.
Proof.
  rewrite forallb_forall. intros H i Hi. apply H, in_seq. lia.
Qed.

Lemma returns_event {W} (o : (exn + ProgressEvent) * W) e0 :
  returns o.1 = true → o = (inr (event_or e0 o.1), o.2).
Proof. by destruct o as [[e|e] w]. Qed.

Lemma attempt_returns_event {W} (o : option ((exn + ProgressEvent) * W)) e0 w0 :
  from_option (λ p, returns p.1) false o = true →
  o = Some (inr (event_or e0 (default (inl TypeError, w0) o).1),
            (default (inl TypeError, w0) o).2).
Proof. by destruct o as [[[e|e] w]|]. Qed.

(** [time.sleep] takes an [int] from [0] to [9223372036]. *)
Lemma timeout_of_Int (n : Z) :
  (0 ≤ n ≤ 9223372036)%Z → timeout_of (Int n) = inr (n * 10 ^ 9)%Z.
Proof.
  intros Hn. unfold timeout_of, nanoseconds.
  change ((- 2 ^ 63) `quot` 10 ^ 9)%Z with (-9223372036)%Z.
  change ((2 ^ 63 - 1) `quot` 10 ^ 9)%Z with 9223372036%Z.
  rewrite (proj2 (Z.ltb_ge n (-9223372036))), (proj2 (Z.ltb_ge 9223372036 n)) by lia.
  simpl orb. cbv iota. by rewrite (proj2 (Z.ltb_ge (n * 10 ^ 9) 0)) by lia.
Qed.

(** The clock of the scenario leaves room for a delay of a quarter of an hour
    at each of its first thousand readings. *)
Lemma in_time_by_the_clock t ns n h registry :
  timeout_of t = inr ns → (ns ≤ 10 ^ 12)%Z → n ≤ 1000 →
  in_time t n (Scenario.world_from h registry).
Proof.
  intros Ht Hns Hn. exists ns. split; [done|]. intros i Hi. simpl.
  unfold Scenario.clock. lia.
Qed.

(** C1.  When the first [k] attempts of the loop return events whose status
    is not [SUCCESS], the attempt [k+1] returns an event whose status is
    [SUCCESS] and [k] is less than [max_iterations], [deploy_loop] returns that
    very event, in the world that the attempt left, having invoked a provider
    [k+1] times and slept [k] times. *)
Theorem deploy_loop_returns_first_success {PS} (self : ResourceProviderExecutor)
    (raw_payload : val) (max_iterations : Z) (sleep_time : number) (k : nat)
    (w : world PS) (event : ProgressEvent) (w' : world PS) :
  (Z.of_nat k < max_iterations)%Z →
  (∀ i, i < k → unfinished self raw_payload sleep_time i w = true) →
  loop_attempt self raw_payload sleep_time k w = Some (inr event, w') →
  Event.status event = SUCCESS →
  deploy_loop self raw_payload max_iterations sleep_time w = (inr event, w')
  ∧ invocations (trace w') = invocations (trace w) + (k + 1)
  ∧ sleeps (trace w') = sleeps (trace w) + k.
Proof.
  intros Hk _ Ha Hs. unfold loop_attempt in Ha. unfold deploy_loop.
  destruct (deepcopy raw_payload w) as [[e|payload] w0] eqn:Hcopy; [done|].
  destruct (deepcopy_calls _ _ _ _ Hcopy) as [Hin0 Hsl0].
  erewrite bind_inr by done.
  destruct (deploy_turns_succeeds self payload sleep_time k
              (Z.to_nat max_iterations) w0 event w') as (Hrun & Hin & Hsl);
    [lia|done..|].
  split; [done|]. rewrite Hin, Hsl, Hin0, Hsl0. lia.
Qed.

(** The scenario of the specification: two attempts in progress, the third
    one a success, thirty iterations allowed and no delay. *)
Lemma deploy_loop_returns_first_success_witness :
  let w := Scenario.world_of "Add"
             {[ "Test::Resource" := Scenario.provider_of (Scenario.counting 2) ]} in
  ∃ event w',
    deploy_loop Scenario.executor Scenario.raw_payload 30 (Int 0) w = (inr event, w')
    ∧ Event.status event = SUCCESS
    ∧ invocations (trace w') = 3
    ∧ sleeps (trace w') = 2.
Proof.
  intros w.
  pose proof (attempt_returns_event
                (loop_attempt Scenario.executor Scenario.raw_payload (Int 0) 2 w)
                Scenario.blank w) as Ho.
  assert (from_option (λ p : (exn + ProgressEvent) * world nat, returns p.1) false
            (loop_attempt Scenario.executor Scenario.raw_payload (Int 0) 2 w) = true)
    as Hret by (vm_compute; reflexivity).
  specialize (Ho Hret). clear Hret.
  set (o := default _ _) in Ho.
  exists (event_or Scenario.blank o.1), o.2.
  destruct (deploy_loop_returns_first_success Scenario.executor Scenario.raw_payload
              30 (Int 0) 2 w (event_or Scenario.blank o.1) o.2)
    as (Hrun & Hin & Hsl).
  - lia.
  - apply (below_forallb (λ i, unfinished _ _ _ i w)). vm_compute. reflexivity.
  - exact Ho.
  - vm_compute. reflexivity.
  - split; [exact Hrun|]. split; [vm_compute; reflexivity|].
    split; [exact Hin|exact Hsl].
Defined.

(** C2.  When each of the [max_iterations] attempts returns an event whose
    status is not [SUCCESS], be it [PENDING], [IN_PROGRESS] or [FAILED], with
    a dict for [custom_context], and the delay is one that [time.sleep] takes
    at each turn (not negative, within the range of the clock, the deadline
    within it too), [deploy_loop] raises [TimeoutError] after
    [max_iterations] invocations and as many sleeps: no event is returned, a
    [FAILED] one no more than the others. *)
Theorem deploy_loop_times_out {PS} (self : ResourceProviderExecutor)
    (raw_payload : val) (max_iterations : Z) (sleep_time : number) (w : world PS) :
  in_time sleep_time (Z.to_nat max_iterations) w →
  (∀ i, i < Z.to_nat max_iterations →
        unfinished self raw_payload sleep_time i w = true) →
  (∀ i, i < Z.to_nat max_iterations →
        mergeable self raw_payload sleep_time i w = true) →
  ∃ w',
    deploy_loop self raw_payload max_iterations sleep_time w
    = (inl (TimeoutError "Could not perform deploy loop action"), w')
    ∧ invocations (trace w') = invocations (trace w) + Z.to_nat max_iterations
    ∧ sleeps (trace w') = sleeps (trace w) + Z.to_nat max_iterations.
Proof.
  intros Ht Hun Hme. unfold deploy_loop.
  destruct (deepcopy raw_payload w) as [[e|payload] w0] eqn:Hcopy; [done|].
  assert (payload = relocate (length (heap w)) raw_payload) as Hp
    by (by injection Hcopy).
  destruct (deepcopy_calls _ _ _ _ Hcopy) as [Hin0 Hsl0].
  assert (in_time sleep_time (Z.to_nat max_iterations) w0) as Ht0.
  { injection Hcopy as _ <-. exact Ht. }
  destruct (deploy_turns_times_out self payload sleep_time
              (Z.to_nat max_iterations) w0 Ht0) as (w' & Hrun & Hin & Hsl).
  { intros i Hi. specialize (Hun i Hi). specialize (Hme i Hi).
    unfold unfinished, mergeable, loop_attempt in Hun, Hme.
    rewrite Hcopy in Hun, Hme.
    destruct (attempt self payload sleep_time i w0) as [[[e|event] w1]|];
      try done.
    exists event, w1. split; [done|].
    apply andb_true_iff in Hme as [H1 H2].
    apply bool_decide_eq_true in Hun, H1, H2. by rewrite Hp. }
  exists w'. erewrite bind_inr by done.
  split; [done|]. rewrite Hin, Hsl, Hin0, Hsl0. lia.
Qed.

(** The scenario of the specification: a provider that always answers
    [FAILED], thirty iterations allowed and the default delay, five
    seconds. *)
Lemma deploy_loop_times_out_witness :
  let w := Scenario.world_of "Add"
             {[ "Test::Resource" := Scenario.provider_of (Scenario.constant FAILED) ]} in
  ∃ w',
    deploy_loop Scenario.executor Scenario.raw_payload 30 (Int 5) w
    = (inl (TimeoutError "Could not perform deploy loop action"), w')
    ∧ invocations (trace w') = 30
    ∧ sleeps (trace w') = 30.
Proof.
  intros w.
  destruct (deploy_loop_times_out Scenario.executor Scenario.raw_payload 30 (Int 5) w)
    as (w' & Hrun & Hin & Hsl).
  - apply (in_time_by_the_clock (Int 5) 5000000000); [reflexivity|lia|simpl; lia].
  - apply (below_forallb (λ i, unfinished _ _ _ i w)). vm_compute. reflexivity.
  - apply (below_forallb (λ i, mergeable _ _ _ i w)). vm_compute. reflexivity.
  - exists w'. split; [exact Hrun|]. split; [exact Hin|exact Hsl].
Defined.

(** C10.  With [max_iterations] at most zero the loop has no turn:
    [deploy_loop] raises [TimeoutError] right after the copy, without an
    invocation, a sleep, a translation or a merge; the store only gains the
    copy. *)
Theorem deploy_loop_without_turn {PS} (self : ResourceProviderExecutor)
    (raw_payload : val) (max_iterations : Z) (sleep_time : number) (w : world PS) :
  (max_iterations ≤ 0)%Z →
  ∃ w',
    deploy_loop self raw_payload max_iterations sleep_time w
    = (inl (TimeoutError "Could not perform deploy loop action"), w')
    ∧ trace w' = trace w ++ [CallDeepcopy raw_payload]
    ∧ invocations (trace w') = invocations (trace w)
    ∧ sleeps (trace w') = sleeps (trace w)
    ∧ heap w' = heap w ++ (relocate_obj (length (heap w)) <$> heap w)
    ∧ providers_state w' = providers_state w
    ∧ uuid_draws w' = uuid_draws w.
Proof.
  intros Hmax. eexists. split.
  - unfold deploy_loop. erewrite bind_inr by apply deepcopy_run.
    replace (Z.to_nat max_iterations) with 0 by lia. reflexivity.
  - simpl. rewrite invocations_snoc, sleeps_snoc. simpl.
    repeat split; lia.
Qed.

Lemma deploy_loop_without_turn_witness :
  let w := Scenario.world_of "Add"
             {[ "Test::Resource" := Scenario.provider_of (Scenario.counting 0) ]} in
  ∃ w',
    deploy_loop Scenario.executor Scenario.raw_payload (-3) (Int 5) w
    = (inl (TimeoutError "Could not perform deploy loop action"), w')
    ∧ invocations (trace w') = 0
    ∧ sleeps (trace w') = 0
    ∧ providers_state w' = 0.
Proof.
  intros w.
  destruct (deploy_loop_without_turn Scenario.executor Scenario.raw_payload (-3) (Int 5) w)
    as (w' & Hrun & _ & Hin & Hsl & _ & Hps & _); [lia|].
  exists w'. split; [exact Hrun|]. split; [exact Hin|]. split; [exact Hsl|exact Hps].
Defined.

(** ** The dispatch *)

(** C5.  When the executor's resource type is not in the private registry,
    [execute_action] raises [NotImplementedError] and leaves the world as it
    found it: nothing is read, no request is built, no capability is invoked.
    [deploy_loop], with one iteration or more allowed, raises the same at its
    first attempt: the copy is its only call, it does not sleep and it does
    not try again. *)
Theorem unregistered_type_is_fatal {PS} (self : ResourceProviderExecutor)
    (w : world PS) :
  PRIVATE_REGISTRY w !! resource_type self = None →
  (∀ payload,
     execute_action self payload w = (inl (NotImplementedError None), w))
  ∧ (∀ raw_payload max_iterations sleep_time,
       (0 < max_iterations)%Z →
       ∃ w',
         deploy_loop self raw_payload max_iterations sleep_time w
         = (inl (NotImplementedError None), w')
         ∧ trace w' = trace w ++ [CallDeepcopy raw_payload]
         ∧ invocations (trace w') = invocations (trace w)
         ∧ sleeps (trace w') = sleeps (trace w)
         ∧ providers_state w' = providers_state w
         ∧ uuid_draws w' = uuid_draws w).
Proof.
  intros Hreg. split.
  - intros payload. unfold execute_action. by rewrite Hreg.
  - intros raw_payload max_iterations sleep_time Hmax. eexists. split.
    + unfold deploy_loop. erewrite bind_inr by apply deepcopy_run.
      destruct (Z.to_nat max_iterations) as [|n] eqn:Hn; [lia|]. simpl.
      erewrite bind_inl; [done|]. unfold execute_action. simpl. by rewrite Hreg.
    + simpl. rewrite invocations_snoc, sleeps_snoc. simpl.
      repeat split; lia.
Qed.

Lemma unregistered_type_is_fatal_witness :
  let w := Scenario.world_of "Add" ∅ in
  execute_action Scenario.executor Scenario.raw_payload w
  = (inl (NotImplementedError None), w)
  ∧ ∃ w',
      deploy_loop Scenario.executor Scenario.raw_payload 30 (Int 5) w
      = (inl (NotImplementedError None), w')
      ∧ invocations (trace w') = 0
      ∧ sleeps (trace w') = 0.
Proof.
  intros w.
  destruct (unregistered_type_is_fatal Scenario.executor w) as [Hone Hloop];
    [reflexivity|].
  split; [apply Hone|].
  destruct (Hloop Scenario.raw_payload 30%Z (Int 5)) as (w' & Hrun & _ & Hin & Hsl & _);
    [lia|].
  exists w'. split; [exact Hrun|]. split; [exact Hin|exact Hsl].
Defined.

(** ** The context from one attempt to the next *)

Lemma context_of_field h payload :
  context_of h payload = field h payload "callbackContext" ≫= dict_at h.
Proof. unfold context_of, field. by destruct (dict_at h payload). Qed.

Lemma payload_reads_context h payload r :
  payload_reads h payload = Some r →
  field h payload "callbackContext" = Some (read_context r).
Proof.
  unfold payload_reads. intros H.
  destruct (field h payload "requestData") as [rd|]; [|done]. simpl in H.
  destruct (field h rd "callerCredentials") as [cc|]; [|done]. simpl in H.
  destruct (field h cc "accessKeyId") as [ak|]; [|done].
  destruct (field h cc "sessionToken") as [st|]; [|done].
  destruct (field h cc "secretAccessKey") as [sk|]; [|done].
  destruct (field h payload "region") as [rg|]; [|done].
  destruct (field h rd "resourceProperties") as [pr|]; [|done].
  destruct (field h rd "logicalResourceId") as [li|]; [|done].
  destruct (field h payload "callbackContext") as [cx|]; [|done].
  simpl in H. by injection H as <-.
Qed.



(** ** The action mapping *)

Lemma trace_translated {PS} f (w : world PS) :
  trace (translated f w)
  = trace w ++ [CallConnect f; CallUuid4 (uuid_draws w); CallGetLogger "abc"].
Proof. simpl. by rewrite <- !app_assoc. Qed.

Lemma invocations_app {PS} (t1 t2 : list (call PS)) :
  invocations (t1 ++ t2) = invocations t1 + invocations t2.
Proof. unfold invocations. by rewrite List.filter_app, length_app. Qed.

Lemma sleeps_app {PS} (t1 t2 : list (call PS)) :
  sleeps (t1 ++ t2) = sleeps t1 + sleeps t2.
Proof. unfold sleeps. by rewrite List.filter_app, length_app. Qed.

(** C4.  On a typed payload and a registered resource type, [execute_action]
    translates the payload, instantiates the provider and then follows the
    action mapping of the specification: for [Add] it invokes [create], for
    [Modify] and [Dynamic] [update], for [Remove] [delete], once, on the
    translated request, and its outcome is the outcome of that capability as
    it is; for any other action it raises [NotImplementedError] with the
    action for argument, no capability having been invoked. *)
Theorem execute_action_follows_action_mapping {PS}
    (self : ResourceProviderExecutor) (payload : val) (w : world PS)
    (cls : ProviderCls PS) :
  PRIVATE_REGISTRY w !! resource_type self = Some cls →
  is_ResourceProviderPayload (heap w) payload = true →
  ∃ action r,
    field (heap w) payload "action" = Some (VStr action)
    ∧ payload_reads (heap w) payload = Some r
    ∧ let request :=
        request_of (stack_name self) (stack_id self) r
          (uuid_source w (uuid_draws w)) in
      let w0 := record (CallInstantiate cls) (translated (factory_of r) w) in
      invocations (trace w0) = invocations (trace w)
      ∧ heap w0 = heap w
      ∧ providers_state w0 = providers_state w
      ∧ match capability_for action with
        | Some c =>
            execute_action self payload w
            = (let '(out, ps, h) :=
                 capability_of c cls (providers_state w) (heap w) request in
               (out,
                with_heap h
                  (with_providers_state ps (record (CallInvoke c request) w0))))
        | None =>
            execute_action self payload w
            = (inl (NotImplementedError (Some (VStr action))), w0)
        end.
Proof.
  intros Hreg Htyped.
  destruct (typed_payload_reads _ _ Htyped) as [[r Hr] [action Ha]].
  exists action, r. split; [done|]. split; [done|]. simpl.
  split; [|split; [done|split; [done|]]].
  { rewrite !invocations_snoc. simpl. lia. }
  rewrite (execute_action_run self payload w cls r (VStr action)) by done.
  unfold capability_for.
  destruct (decide (action = "Add")) as [->|Hadd].
  { rewrite decide_True by done. unfold invoke. simpl.
    by destruct (create cls _ _ _) as [[out ps] h]. }
  rewrite (decide_False (P := VStr action = VStr "Add")) by congruence.
  destruct (decide (action = "Modify")) as [->|Hmod].
  { rewrite decide_True by auto. unfold invoke. simpl.
    by destruct (update cls _ _ _) as [[out ps] h]. }
  destruct (decide (action = "Dynamic")) as [->|Hdyn].
  { rewrite decide_True by auto. unfold invoke. simpl.
    by destruct (update cls _ _ _) as [[out ps] h]. }
  rewrite (decide_False (P := _ ∨ _)) by (intros [?|?]; congruence).
  destruct (decide (action = "Remove")) as [->|Hrem].
  { rewrite decide_True by done. unfold invoke. simpl.
    by destruct (delete cls _ _ _) as [[out ps] h]. }
  rewrite (decide_False (P := VStr action = VStr "Remove")) by congruence. done.
Qed.

(** The mapping on the five kinds of action. *)
Lemma capability_for_cases :
  capability_for "Add" = Some Create
  ∧ capability_for "Modify" = Some Update
  ∧ capability_for "Dynamic" = Some Update
  ∧ capability_for "Remove" = Some Delete
  ∧ ∀ action, action ≠ "Add" → action ≠ "Modify" → action ≠ "Dynamic" →
              action ≠ "Remove" → capability_for action = None.
Proof.
  repeat split; try reflexivity.
  intros action H1 H2 H3 H4. unfold capability_for.
  by rewrite !decide_False.
Qed.

Lemma execute_action_follows_action_mapping_witness :
  let cls := {| TYPE := Some "Test::Resource";
                create := Scenario.constant PENDING;
                update := Scenario.constant IN_PROGRESS;
                delete := Scenario.constant FAILED |} in
  let w := Scenario.world_of "Dynamic" {[ "Test::Resource" := cls ]} in
  ∃ event w',
    execute_action Scenario.executor Scenario.raw_payload w = (inr event, w')
    ∧ Event.status event = IN_PROGRESS
    ∧ invocations (trace w') = 1.
Proof.
  intros cls w.
  destruct (execute_action_follows_action_mapping Scenario.executor
              Scenario.raw_payload w cls)
    as (action & r & Ha & Hr & _ & _ & _ & Hrun).
  - reflexivity.
  - vm_compute. reflexivity.
  - assert (action = "Dynamic") as -> by (vm_compute in Ha; congruence).
    change (capability_for "Dynamic") with (Some Update) in Hrun.
    rewrite Hrun. clear Hrun.
    assert (r = {| read_access_key := VStr "test";
                   read_session_token := VStr "";
                   read_secret_key := VStr "test";
                   read_region := VStr "eu-west-1";
                   read_properties := VRef 3;
                   read_logical_id := VStr "Res";
                   read_context := VRef 0 |}) as ->
      by (vm_compute in Hr; congruence).
    eexists _, _. split; [reflexivity|]. split; reflexivity.
Defined.

(** C8.  On a typed payload, a registered resource type and an action that
    is none of [Add], [Modify], [Dynamic] and [Remove], [execute_action] has
    built the client factory, drawn the request token, fetched the logger
    and instantiated the provider, in that order, when it raises
    [NotImplementedError]: only the invocation of a capability is left
    out. *)
Theorem unknown_action_fails_after_translation {PS}
    (self : ResourceProviderExecutor) (payload : val) (w : world PS)
    (cls : ProviderCls PS) (action : string) :
  PRIVATE_REGISTRY w !! resource_type self = Some cls →
  is_ResourceProviderPayload (heap w) payload = true →
  field (heap w) payload "action" = Some (VStr action) →
  action ≠ "Add" → action ≠ "Modify" → action ≠ "Dynamic" → action ≠ "Remove" →
  ∃ r w',
    payload_reads (heap w) payload = Some r
    ∧ execute_action self payload w
      = (inl (NotImplementedError (Some (VStr action))), w')
    ∧ trace w'
      = trace w ++ [CallConnect (factory_of r); CallUuid4 (uuid_draws w);
                    CallGetLogger "abc"; CallInstantiate cls]
    ∧ uuid_draws w' = S (uuid_draws w)
    ∧ invocations (trace w') = invocations (trace w)
    ∧ heap w' = heap w
    ∧ providers_state w' = providers_state w.
Proof.
  intros Hreg Htyped Ha H1 H2 H3 H4.
  destruct (typed_payload_reads _ _ Htyped) as [[r Hr] _].
  exists r, (record (CallInstantiate cls) (translated (factory_of r) w)).
  split; [done|]. split.
  - rewrite (execute_action_run self payload w cls r (VStr action)) by done.
    rewrite (decide_False (P := VStr action = VStr "Add")) by congruence.
    rewrite (decide_False (P := _ ∨ _)) by (intros [?|?]; congruence).
    by rewrite (decide_False (P := VStr action = VStr "Remove")) by congruence.
  - simpl. rewrite <- !app_assoc. simpl. split; [done|]. split; [done|].
    split; [|done]. rewrite invocations_app. unfold invocations at 2. simpl. lia.
Qed.

Lemma unknown_action_fails_after_translation_witness :
  let cls := Scenario.provider_of (Scenario.constant SUCCESS) in
  let w := Scenario.world_of "Import" {[ "Test::Resource" := cls ]} in
  ∃ w',
    execute_action Scenario.executor Scenario.raw_payload w
    = (inl (NotImplementedError (Some (VStr "Import"))), w')
    ∧ uuid_draws w' = 1
    ∧ invocations (trace w') = 0
    ∧ providers_state w' = 0.
Proof.
  intros cls w.
  destruct (unknown_action_fails_after_translation Scenario.executor
              Scenario.raw_payload w cls "Import")
    as (r & w' & _ & Hrun & _ & Hdraws & Hin & _ & Hps);
    [reflexivity|vm_compute; reflexivity|vm_compute; reflexivity|done..|].
  exists w'. split; [exact Hrun|]. split; [exact Hdraws|].
  split; [exact Hin|exact Hps].
Defined.

(** ** The request translator *)

Lemma payload_reads_properties h payload r :
  payload_reads h payload = Some r →
  field h payload "requestData" ≫= (λ rd, field h rd "resourceProperties")
  = Some (read_properties r).
Proof.
  unfold payload_reads. intros H.
  destruct (field h payload "requestData") as [rd|]; [|done]. simpl in *.
  destruct (field h rd "callerCredentials") as [cc|]; [|done]. simpl in H.
  destruct (field h cc "accessKeyId") as [ak|]; [|done].
  destruct (field h cc "sessionToken") as [st|]; [|done].
  destruct (field h cc "secretAccessKey") as [sk|]; [|done].
  destruct (field h payload "region") as [rg|]; [|done].
  destruct (field h rd "resourceProperties") as [pr|]; [|done].
  destruct (field h rd "logicalResourceId") as [li|]; [|done].
  destruct (field h payload "callbackContext") as [cx|]; [|done].
  simpl in H. by injection H as <-.
Qed.

(** C7.  On a typed payload [convert_payload] returns a request whose
    [desired_state] and [_original_payload] are both the payload's
    [resourceProperties] and whose [custom_context] is the very value under
    the payload's [callbackContext].  Its token is the next draw of
    [uuid4], so that a second call gets the draw after it; but for the
    token, the request is the same in every world with the same store.  The
    call reads the store and leaves it as it is. *)
Theorem convert_payload_translates {PS} (stack_name stack_id : string)
    (payload : val) (w : world PS) :
  is_ResourceProviderPayload (heap w) payload = true →
  ∃ request w',
    convert_payload stack_name stack_id payload w = (inr request, w')
    ∧ field (heap w) payload "requestData"
        ≫= (λ rd, field (heap w) rd "resourceProperties")
      = Some (Request.desired_state request)
    ∧ Request._original_payload request = Request.desired_state request
    ∧ field (heap w) payload "callbackContext"
      = Some (Request.custom_context request)
    ∧ Request.request_token request = uuid_source w (uuid_draws w)
    ∧ uuid_draws w' = S (uuid_draws w)
    ∧ heap w' = heap w
    ∧ providers_state w' = providers_state w
    ∧ invocations (trace w') = invocations (trace w)
    ∧ sleeps (trace w') = sleeps (trace w)
    ∧ (∃ again w'',
         convert_payload stack_name stack_id payload w' = (inr again, w'')
         ∧ Request.request_token again = uuid_source w (S (uuid_draws w))
         ∧ again = with_request_token (Request.request_token again) request)
    ∧ (∀ v : world PS,
         heap v = heap w →
         ∃ other v',
           convert_payload stack_name stack_id payload v = (inr other, v')
           ∧ other = with_request_token (Request.request_token other) request).
Proof.
  intros Htyped.
  destruct (typed_payload_reads _ _ Htyped) as [[r Hr] _].
  eexists _, _. split; [by apply convert_payload_run|]. simpl.
  split; [by apply payload_reads_properties|].
  split; [done|]. split; [by apply payload_reads_context|].
  split; [done|]. split; [done|]. split; [done|]. split; [done|].
  split; [rewrite !invocations_snoc; simpl; lia|].
  split; [rewrite !sleeps_snoc; simpl; lia|].
  split.
  - eexists _, _. split; [by apply convert_payload_run|]. done.
  - intros v Hv. eexists _, _.
    split; [apply convert_payload_run; by rewrite Hv|]. done.
Qed.

Lemma convert_payload_translates_witness :
  let w := Scenario.world_of "Add" ∅ in
  ∃ request w',
    convert_payload "stack" "stack-1" Scenario.raw_payload w = (inr request, w')
    ∧ Request.desired_state request = VRef 3
    ∧ Request._original_payload request = VRef 3
    ∧ Request.custom_context request = VRef 0
    ∧ Request.request_token request = "token"
    ∧ uuid_draws w' = 1.
Proof.
  intros w.
  destruct (convert_payload_translates "stack" "stack-1" Scenario.raw_payload w)
    as (request & w' & Hrun & Hds & Hop & Hcc & Htok & Hdraws & _);
    [vm_compute; reflexivity|].
  exists request, w'. split; [exact Hrun|].
  assert (field (heap w) Scenario.raw_payload "requestData"
            ≫= (λ rd, field (heap w) rd "resourceProperties") = Some (VRef 3))
    as Eds by (vm_compute; reflexivity).
  assert (field (heap w) Scenario.raw_payload "callbackContext" = Some (VRef 0))
    as Ecc by (vm_compute; reflexivity).
  rewrite Eds in Hds. rewrite Ecc in Hcc.
  injection Hds as Hds. injection Hcc as Hcc.
  split; [symmetry; exact Hds|]. split; [rewrite Hop; symmetry; exact Hds|].
  split; [symmetry; exact Hcc|].
  split; [rewrite Htok; reflexivity|exact Hdraws].
Defined.

Lemma setitem_write {PS} v key x (w : world PS) d :
  dict_at (heap w) v = Some d →
  setitem v key x w = (inr (), with_heap (write (heap w) v key x) w).
Proof.
  unfold dict_at, setitem, write. intros H.
  destruct v as [| | | |l]; try done.
  by destruct (heap w !! l) as [[d'|]|].
Qed.

Lemma field_write_ne h p key x v key' :
  key ≠ key' → field (write h p key x) v key' = field h v key'.
Proof.
  intros Hne. unfold field, write, dict_at.
  destruct p as [| | | |l]; try done.
  destruct (h !! l) as [[d|xs]|] eqn:Hl; try done.
  destruct v as [| | | |l']; try done.
  destruct (decide (l = l')) as [<-|Hll].
  - rewrite list_lookup_insert_eq by (by eapply lookup_lt_Some).
    rewrite Hl. simpl. by apply lookup_insert_ne.
  - by rewrite list_lookup_insert_ne.
Qed.

Lemma field_write_eq h p key x d :
  dict_at h p = Some d → field (write h p key x) p key = Some x.
Proof.
  unfold field, write, dict_at. intros H.
  destruct p as [| | | |l]; try done.
  destruct (h !! l) as [[d'|xs]|] eqn:Hl; try done.
  rewrite list_lookup_insert_eq by (by eapply lookup_lt_Some).
  simpl. apply lookup_insert_eq.
Qed.

Lemma payload_reads_write_region h payload r x :
  payload_reads h payload = Some r →
  payload_reads (write h payload "region" x) payload
  = Some {| read_access_key := read_access_key r;
            read_session_token := read_session_token r;
            read_secret_key := read_secret_key r;
            read_region := x;
            read_properties := read_properties r;
            read_logical_id := read_logical_id r;
            read_context := read_context r |}.
Proof.
  unfold payload_reads. intros H.
  rewrite (field_write_ne h payload "region" x payload "requestData") by done.
  rewrite (field_write_ne h payload "region" x payload "callbackContext") by done.
  destruct (field h payload "requestData") as [rd|] eqn:Hrd; [|done].
  simpl in *.
  rewrite (field_write_ne h payload "region" x rd "callerCredentials") by done.
  rewrite (field_write_ne h payload "region" x rd "resourceProperties") by done.
  rewrite (field_write_ne h payload "region" x rd "logicalResourceId") by done.
  destruct (field h rd "callerCredentials") as [cc|]; [|done]. simpl in *.
  rewrite (field_write_ne h payload "region" x cc "accessKeyId") by done.
  rewrite (field_write_ne h payload "region" x cc "sessionToken") by done.
  rewrite (field_write_ne h payload "region" x cc "secretAccessKey") by done.
  destruct (field h cc "accessKeyId") as [ak|]; [|done].
  destruct (field h cc "sessionToken") as [st|]; [|done].
  destruct (field h cc "secretAccessKey") as [sk|]; [|done].
  destruct (field h payload "region") as [rg|]; [|done].
  destruct (field h rd "resourceProperties") as [pr|]; [|done].
  destruct (field h rd "logicalResourceId") as [li|]; [|done].
  destruct (field h payload "callbackContext") as [cx|]; [|done].
  simpl in *. injection H as <-. simpl.
  assert (∃ d, dict_at h payload = Some d) as [d Hd].
  { unfold field in Hrd. destruct (dict_at h payload) as [d|]; [|done].
    by exists d. }
  by rewrite (field_write_eq h payload "region" x d Hd).
Qed.

(** C9.  On a typed payload the request of [convert_payload] has
    ["000000000000"] for [account_id] and ["us-east-1"] for [region_name],
    whatever the payload says.  The payload's [region] goes to [connect_to]
    and to nothing else: with another value under [region] the request is
    the same but for the region of its client factory, and another
    [awsAccountId] changes nothing at all. *)
Theorem convert_payload_fixes_account_and_region {PS}
    (stack_name stack_id : string) (payload : val) (w : world PS) :
  is_ResourceProviderPayload (heap w) payload = true →
  ∃ request w',
    convert_payload stack_name stack_id payload w = (inr request, w')
    ∧ Request.account_id request = "000000000000"
    ∧ Request.region_name request = "us-east-1"
    ∧ field (heap w) payload "region"
      = Some (client_region_name (Request.aws_client_factory request))
    ∧ (∀ region,
         ∃ v',
           convert_payload stack_name stack_id payload
             (with_heap (write (heap w) payload "region" region) w)
           = (inr (with_client_region region request), v'))
    ∧ (∀ account,
         ∃ v',
           convert_payload stack_name stack_id payload
             (with_heap (write (heap w) payload "awsAccountId" account) w)
           = (inr request, v')).
Proof.
  intros Htyped.
  destruct (typed_payload_reads _ _ Htyped) as [[r Hr] _].
  eexists _, _. split; [by apply convert_payload_run|]. simpl.
  split; [done|]. split; [done|]. split; [|split].
  - clear Htyped. unfold payload_reads in Hr.
    destruct (field (heap w) payload "requestData") as [rd|]; [|done].
    simpl in Hr.
    destruct (field (heap w) rd "callerCredentials") as [cc|]; [|done].
    simpl in Hr.
    destruct (field (heap w) cc "accessKeyId") as [ak|]; [|done].
    destruct (field (heap w) cc "sessionToken") as [st|]; [|done].
    destruct (field (heap w) cc "secretAccessKey") as [sk|]; [|done].
    destruct (field (heap w) payload "region") as [rg|]; [|done].
    destruct (field (heap w) rd "resourceProperties") as [pr|]; [|done].
    destruct (field (heap w) rd "logicalResourceId") as [li|]; [|done].
    destruct (field (heap w) payload "callbackContext") as [cx|]; [|done].
    simpl in Hr. by injection Hr as <-.
  - intros region. eexists.
    erewrite convert_payload_run
      by (simpl; by apply payload_reads_write_region).
    done.
  - intros account. eexists.
    erewrite convert_payload_run; [done|]. simpl.
    unfold payload_reads in *.
    rewrite !(field_write_ne (heap w) payload "awsAccountId" account payload)
      by done.
    destruct (field (heap w) payload "requestData") as [rd|]; [|done].
    simpl in *.
    rewrite !(field_write_ne (heap w) payload "awsAccountId" account rd) by done.
    destruct (field (heap w) rd "callerCredentials") as [cc|]; [|done].
    simpl in *.
    by rewrite !(field_write_ne (heap w) payload "awsAccountId" account cc)
      by done.
Qed.

Lemma convert_payload_fixes_account_and_region_witness :
  let w := Scenario.world_of "Add" ∅ in
  ∃ request w',
    convert_payload "stack" "stack-1" Scenario.raw_payload w = (inr request, w')
    ∧ field (heap w) Scenario.raw_payload "region" = Some (VStr "eu-west-1")
    ∧ field (heap w) Scenario.raw_payload "awsAccountId" = Some (VStr "123456789012")
    ∧ Request.account_id request = "000000000000"
    ∧ Request.region_name request = "us-east-1"
    ∧ client_region_name (Request.aws_client_factory request) = VStr "eu-west-1".
Proof.
  intros w.
  destruct (convert_payload_fixes_account_and_region "stack" "stack-1"
              Scenario.raw_payload w)
    as (request & w' & Hrun & Hacc & Hreg & Hcl & _);
    [vm_compute; reflexivity|].
  exists request, w'. split; [exact Hrun|].
  assert (field (heap w) Scenario.raw_payload "region" = Some (VStr "eu-west-1"))
    as Erg by (vm_compute; reflexivity).
  split; [exact Erg|]. split; [vm_compute; reflexivity|].
  split; [exact Hacc|]. split; [exact Hreg|].
  rewrite Erg in Hcl. injection Hcl as Hcl. symmetry. exact Hcl.
Defined.

(** ** The caller's payload *)

Lemma dict_at_below (h h' : store) v d :
  (∀ l, l < length h → h' !! l = h !! l) →
  dict_at h v = Some d → dict_at h' v = Some d.
Proof.
  unfold dict_at. intros Hframe H.
  destruct v as [| | | |l]; try done.
  destruct (h !! l) as [o|] eqn:Hl; [|done].
  rewrite Hframe, Hl by (by eapply lookup_lt_Some). done.
Qed.

(** C6.  [deploy_loop] works on a copy: when the registered provider has no
    handle of its own on the caller's objects, every object that the
    caller's store had when [deploy_loop] was called is the same when it
    returns or raises, however many attempts were made and whatever the
    providers returned or wrote into their requests.  So are, in
    particular, the caller's payload dict and its [callbackContext]. *)
Theorem deploy_loop_keeps_the_callers_objects {PS}
    (self : ResourceProviderExecutor) (raw_payload : val)
    (max_iterations : Z) (sleep_time : number) (w : world PS)
    (out : exn + ProgressEvent) (w' : world PS) :
  (∀ cls, PRIVATE_REGISTRY w !! resource_type self = Some cls →
          provider_confined (length (heap w)) cls) →
  deploy_loop self raw_payload max_iterations sleep_time w = (out, w') →
  (∀ l, l < length (heap w) → heap w' !! l = heap w !! l)
  ∧ (∀ d, dict_at (heap w) raw_payload = Some d →
          dict_at (heap w') raw_payload = Some d)
  ∧ (∀ c, context_of (heap w) raw_payload = Some c →
          context_of (heap w') raw_payload = Some c).
Proof.
  intros Hreg H. unfold deploy_loop in H.
  erewrite bind_inr in H by apply deepcopy_run.
  set (n := length (heap w)) in *.
  apply (deploy_turns_confines n) in H as [_ Hframe]; cycle 1.
  { apply above_relocate. }
  { done. }
  { split; simpl; [rewrite length_app; lia|apply apart_deepcopy]. }
  simpl in Hframe.
  assert (∀ l, l < n → heap w' !! l = heap w !! l) as Hsame.
  { intros l Hl. rewrite Hframe by done. apply lookup_app_l. done. }
  split; [done|]. split.
  - intros d. by apply dict_at_below.
  - intros c. unfold context_of. intros Hc.
    destruct (dict_at (heap w) raw_payload) as [d|] eqn:Hd; [|done].
    rewrite (dict_at_below _ _ _ _ Hsame Hd). simpl in *.
    destruct (d !! "callbackContext") as [cx|]; [|done]. simpl in *.
    by apply (dict_at_below (heap w)).
Qed.

Lemma stamping_confined lo : confined lo Scenario.stamping.
Proof.
  intros ps h request out ps' h' Hlen Hap (_ & Hds & _) H.
  unfold Scenario.stamping in H.
  destruct (Request.desired_state request) as [| | | |l];
    try (by injection H as <- <- <-).
  destruct (h !! l) as [[d|xs]|] eqn:Hl; try (by injection H as <- <- <-).
  injection H as <- <- <-. simpl in Hds.
  split; [|split].
  - intros k Hk. rewrite lookup_app_l by (rewrite length_insert; lia).
    apply list_lookup_insert_ne. lia.
  - apply apart_app.
    + apply apart_insert; [done|]. simpl.
      apply map_Forall_insert_2; [done|]. by apply (Hap l (ODict d)).
    + simpl. by apply map_Forall_singleton.
  - intros event [= <-]. simpl. rewrite length_insert. lia.
Qed.

(** The provider writes an [Id] into the properties of its request and the
    loop a merged context into its payload; the caller's properties and
    context have neither. *)
Lemma deploy_loop_keeps_the_callers_objects_witness :
  let w := Scenario.world_of "Add"
             {[ "Test::Resource" := Scenario.provider_of Scenario.stamping ]} in
  let run := deploy_loop Scenario.executor Scenario.raw_payload 30 (Int 0) w in
  (∀ l, l < 10 → heap run.2 !! l = heap w !! l)
  ∧ context_of (heap run.2) Scenario.raw_payload = Some ∅
  ∧ heap run.2 !! 3 = Some (ODict {[ "QueueName" := VStr "q" ]})
  ∧ heap run.2 !! 13
    = Some (ODict {[ "QueueName" := VStr "q"; "Id" := VStr "res-1" ]})
  ∧ context_of (heap run.2) (VRef 19) = Some {[ "stamped" := VBool true ]}.
Proof.
  intros w run.
  destruct (deploy_loop_keeps_the_callers_objects Scenario.executor
              Scenario.raw_payload 30 (Int 0) w run.1 run.2)
    as (Hframe & _ & Hctx).
  - intros cls Hcls.
    assert (PRIVATE_REGISTRY w !! resource_type Scenario.executor
            = Some (Scenario.provider_of Scenario.stamping)) as Hreg
      by reflexivity.
    rewrite Hreg in Hcls. injection Hcls as <-.
    unfold provider_confined. simpl.
    split; [|split]; apply stamping_confined.
  - apply surjective_pairing.
  - split; [exact Hframe|]. split; [apply Hctx; reflexivity|].
    split; [rewrite Hframe by (simpl; lia); reflexivity|].
    split; vm_compute; reflexivity.
Defined.

(** The turns of the loop run on the caller's payload itself, without the
    copy, leave the caller another context and other properties. *)
Lemma turns_without_copy_change_the_payload :
  let w := Scenario.world_of "Add"
             {[ "Test::Resource" := Scenario.provider_of Scenario.stamping ]} in
  let run := deploy_turns Scenario.executor Scenario.raw_payload (Int 0) 30 w in
  context_of (heap run.2) Scenario.raw_payload = Some {[ "stamped" := VBool true ]}
  ∧ heap run.2 !! 3
    = Some (ODict {[ "QueueName" := VStr "q"; "Id" := VStr "res-1" ]}).
Proof. split; vm_compute; reflexivity. Qed.

(** * More of the executor

    The registration of providers, what a dispatch and a run can do at most,
    and the ways in which they fail. *)

(** ** Providers for the scenarios below *)

Module Providers.

(** A capability that raises, as a provider whose backend refuses the
    call. *)
Definition raising (name : string) : capability nat := λ calls h _,
  (inl (OtherError name), S calls, h).

(** A capability that answers [IN_PROGRESS] with [None] for context. *)
Definition careless : capability nat := λ calls h request,
  (inr (Scenario.event_of IN_PROGRESS request VNone), S calls, h).

(** The first call answers [IN_PROGRESS], the second one raises. *)
Definition failing_later (name : string) : capability nat := λ calls h request,
  if decide (calls = 0) then Scenario.counting 1 calls h request
  else raising name calls h request.

(** A class that overrides [create] only. *)
Definition create_only (c : capability nat) : ProviderCls nat :=
  {| TYPE := Some "Test::Resource";
     create := c;
     update := not_implemented;
     delete := not_implemented |}.

(** The payload of the scenario without one of its keys. *)
Definition store_without (key : string) : store :=
  match Scenario.store_of "Add" with
  | [c; cc; pc; p; t1; t2; t3; t4; rd; ODict d] =>
      [c; cc; pc; p; t1; t2; t3; t4; rd; ODict (base.delete key d)]
  | h => h
  end.

End Providers.

(** ** Registration *)

(** X1.  Registering a class whose [TYPE] is a non-empty name puts it in the
    private registry under that name and returns it: a lookup of the name
    gives the class, the other names keep their provider, and nothing else
    in the world changes.  A later registration under the same name
    replaces it. *)
Theorem register_then_lookup {PS} (cls : ProviderCls PS) (t : string)
    (w : world PS) :
  TYPE cls = Some t → t ≠ "" →
  ∃ w',
    register_resource_provider cls w = (inr cls, w')
    ∧ PRIVATE_REGISTRY w' !! t = Some cls
    ∧ (∀ t', t' ≠ t → PRIVATE_REGISTRY w' !! t' = PRIVATE_REGISTRY w !! t')
    ∧ PUBLIC_REGISTRY w' = PUBLIC_REGISTRY w
    ∧ heap w' = heap w
    ∧ providers_state w' = providers_state w
    ∧ uuid_draws w' = uuid_draws w
    ∧ trace w' = trace w
    ∧ ∀ later,
        TYPE later = Some t →
        ∃ w'',
          register_resource_provider later w' = (inr later, w'')
          ∧ PRIVATE_REGISTRY w'' !! t = Some later.
Proof.
  intros Ht Hne. eexists. split.
  { unfold register_resource_provider. rewrite Ht. by rewrite decide_False. }
  simpl. split; [apply lookup_insert_eq|].
  split; [intros t' Ht'; by apply lookup_insert_ne|].
  repeat (split; [done|]).
  intros later Hlater. eexists. split.
  { unfold register_resource_provider. rewrite Hlater. by rewrite decide_False. }
  simpl. apply lookup_insert_eq.
Qed.

Lemma register_then_lookup_witness :
  let w := Scenario.world_of "Add" ∅ in
  let cls := Scenario.provider_of (Scenario.constant SUCCESS) in
  ∃ w',
    register_resource_provider cls w = (inr cls, w')
    ∧ PRIVATE_REGISTRY w' !! "Test::Resource" = Some cls
    ∧ PRIVATE_REGISTRY w' !! "Other::Resource" = None.
Proof.
  intros w cls.
  destruct (register_then_lookup cls "Test::Resource" w)
    as (w' & Hrun & Hlook & Hother & _); [reflexivity|done|].
  exists w'. split; [exact Hrun|]. split; [exact Hlook|].
  rewrite Hother by done. reflexivity.
Defined.

Lemma execute_action_capability {PS} (self : ResourceProviderExecutor)
    (payload : val) (w : world PS) cls r action c :
  PRIVATE_REGISTRY w !! resource_type self = Some cls →
  payload_reads (heap w) payload = Some r →
  field (heap w) payload "action" = Some (VStr action) →
  capability_for action = Some c →
  execute_action self payload w
  = invoke c cls
      (request_of (stack_name self) (stack_id self) r
         (uuid_source w (uuid_draws w)))
      (record (CallInstantiate cls) (translated (factory_of r) w)).
Proof.
  intros Hreg Hr Ha Hc.
  rewrite (execute_action_run self payload w cls r (VStr action)) by done.
  unfold capability_for in Hc.
  destruct (decide (action = "Add")) as [->|Hadd].
  { injection Hc as <-. by rewrite decide_True. }
  rewrite (decide_False (P := VStr action = VStr "Add")) by congruence.
  destruct (decide (action = "Modify")) as [->|Hmod].
  { injection Hc as <-. by rewrite decide_True by auto. }
  destruct (decide (action = "Dynamic")) as [->|Hdyn].
  { injection Hc as <-. by rewrite decide_True by auto. }
  rewrite (decide_False (P := _ ∨ _)) by (intros [?|?]; congruence).
  destruct (decide (action = "Remove")) as [->|Hrem]; [|done].
  injection Hc as <-. by rewrite decide_True.
Qed.

(** X2.  A registered class is the one that is dispatched to: after
    [register_resource_provider cls], an executor for the [TYPE] of the class
    invokes, on a typed payload, the capability of [cls] that the action
    stands for. *)
Theorem register_then_dispatch {PS} (cls : ProviderCls PS) (t : string)
    (self : ResourceProviderExecutor) (payload : val) (w : world PS) :
  TYPE cls = Some t → t ≠ "" → resource_type self = t →
  is_ResourceProviderPayload (heap w) payload = true →
  ∃ w1 action r,
    register_resource_provider cls w = (inr cls, w1)
    ∧ field (heap w) payload "action" = Some (VStr action)
    ∧ payload_reads (heap w) payload = Some r
    ∧ ∀ c,
        capability_for action = Some c →
        execute_action self payload w1
        = invoke c cls
            (request_of (stack_name self) (stack_id self) r
               (uuid_source w (uuid_draws w)))
            (record (CallInstantiate cls) (translated (factory_of r) w1)).
Proof.
  intros Ht Hne Hself Htyped.
  destruct (typed_payload_reads _ _ Htyped) as [[r Hr] [action Ha]].
  eexists _, action, r. split.
  { unfold register_resource_provider. rewrite Ht. by rewrite decide_False. }
  split; [done|]. split; [done|]. intros c Hc.
  rewrite (execute_action_capability self payload _ cls r action c); try done.
  simpl. rewrite Hself. apply lookup_insert_eq.
Qed.

Lemma register_then_dispatch_witness :
  let w := Scenario.world_of "Remove" ∅ in
  let cls := {| TYPE := Some "Test::Resource";
                create := Scenario.constant PENDING;
                update := Scenario.constant IN_PROGRESS;
                delete := Scenario.constant SUCCESS |} in
  ∃ w1,
    register_resource_provider cls w = (inr cls, w1)
    ∧ Event.status
        (event_or Scenario.blank
           (execute_action Scenario.executor Scenario.raw_payload w1).1)
      = SUCCESS.
Proof.
  intros w cls.
  destruct (register_then_dispatch cls "Test::Resource" Scenario.executor
              Scenario.raw_payload w)
    as (w1 & action & r & Hreg & Ha & Hr & Hrun);
    [reflexivity|done|reflexivity|vm_compute; reflexivity|].
  exists w1. split; [exact Hreg|].
  assert (action = "Remove") as ->.
  { assert (field (heap w) Scenario.raw_payload "action" = Some (VStr "Remove"))
      as E by (vm_compute; reflexivity).
    rewrite E in Ha. by injection Ha. }
  rewrite (Hrun Delete eq_refl). reflexivity.
Defined.

(** ** What a dispatch and a run do at most *)

(** X3.  [execute_action] is one shot: whatever the payload, the registry
    and the outcome, it does not sleep and it invokes a capability once at
    most, exactly once when it returns an event; when it has invoked none
    it has raised, and the store and the providers' state are as before. *)
Theorem execute_action_is_one_shot {PS} (self : ResourceProviderExecutor)
    (payload : val) (w : world PS) (out : exn + ProgressEvent) (w' : world PS) :
  execute_action self payload w = (out, w') →
  sleeps (trace w') = sleeps (trace w)
  ∧ (invocations (trace w') = invocations (trace w)
     ∨ invocations (trace w') = S (invocations (trace w)))
  ∧ (returns out = true → invocations (trace w') = S (invocations (trace w)))
  ∧ (invocations (trace w') = invocations (trace w) →
     returns out = false ∧ heap w' = heap w
     ∧ providers_state w' = providers_state w).
Proof.
  unfold execute_action. destruct (PRIVATE_REGISTRY w !! _) as [cls|]; cycle 1.
  { intros [= <- <-]. split; [done|]. split; [by left|]. by split. }
  intros H.
  apply bind_inv in H as [(a & w1 & H1 & H)|(e & H1 & ->)]; cycle 1.
  { apply getitem_inv in H1 as [-> _]. split; [done|]. split; [by left|].
    by split. }
  apply getitem_inv in H1 as [-> _].
  apply bind_inv in H as [(request & w2 & H2 & H)|(e & H2 & ->)]; cycle 1.
  { pose proof (preserves_convert_payload same_calls _ _ _ _ _ _ H2) as [Hi Hs].
    pose proof (preserves_convert_payload same_store _ _ _ _ _ _ H2)
      as (Hh & _ & Hp).
    split; [done|]. split; [by left|]. by split. }
  pose proof (preserves_convert_payload same_calls _ _ _ _ _ _ H2) as [Hi2 Hs2].
  pose proof (preserves_convert_payload same_store _ _ _ _ _ _ H2)
    as (Hh2 & _ & Hp2).
  apply bind_inv in H as [(provider & w3 & H3 & H)|(e & H3 & ->)]; [|done].
  injection H3 as <- <-.
  assert (invocations (trace (record (CallInstantiate cls) w2))
          = invocations (trace w)) as Hi3.
  { simpl. rewrite invocations_snoc. simpl. lia. }
  assert (sleeps (trace (record (CallInstantiate cls) w2)) = sleeps (trace w))
    as Hs3.
  { simpl. rewrite sleeps_snoc. simpl. lia. }
  repeat case_decide;
    try (apply invoke_calls in H as [Hi Hs];
         split; [congruence|]; split; [right; congruence|];
         split; [intros _; congruence|]; intros; lia).
  injection H as <- <-. split; [done|]. split; [by left|]. by split.
Qed.

Lemma execute_action_is_one_shot_witness :
  let w := Scenario.world_of "Add"
             {[ "Test::Resource" := Scenario.provider_of (Scenario.counting 2) ]} in
  let run := execute_action Scenario.executor Scenario.raw_payload w in
  sleeps (trace run.2) = 0 ∧ invocations (trace run.2) = 1.
Proof.
  intros w run.
  destruct (execute_action_is_one_shot Scenario.executor Scenario.raw_payload w
              run.1 run.2) as (Hs & _ & Hi & _); [apply surjective_pairing|].
  split; [exact Hs|]. apply Hi. vm_compute. reflexivity.
Defined.

Lemma deploy_turns_returns_inv {PS} (self : ResourceProviderExecutor)
    (payload : val) (t : number) (n : nat) :
  ∀ (w : world PS) event w',
    deploy_turns self payload t n w = (inr event, w') →
    Event.status event = SUCCESS
    ∧ ∃ k, k < n ∧ attempt self payload t k w = Some (inr event, w').
Proof.
  induction n as [|n IH]; intros w event w' H; [done|].
  simpl in H.
  apply bind_inv in H as [(ev & w1 & He & H)|(e & _ & ?)]; [|done].
  case_decide as Hst.
  - injection H as <- <-. split; [done|]. exists 0. split; [lia|].
    simpl. by rewrite He.
  - apply bind_inv in H as [(u & w2 & Hc & H)|(e & _ & ?)]; [|done].
    destruct (IH _ _ _ H) as (Hs & k & Hk & Ha). split; [done|].
    exists (S k). split; [lia|]. by erewrite attempt_step.
Qed.

(** X4.  [deploy_loop] returns no event but a [SUCCESS]: an event that it
    returns has that status and is the event of an attempt [k+1] within the
    iterations allowed, and the run made [k+1] invocations and [k] sleeps.
    An event with another status is never the result. *)
Theorem deploy_loop_returns_only_success {PS} (self : ResourceProviderExecutor)
    (raw_payload : val) (max_iterations : Z) (sleep_time : number) (w : world PS)
    (event : ProgressEvent) (w' : world PS) :
  deploy_loop self raw_payload max_iterations sleep_time w = (inr event, w') →
  Event.status event = SUCCESS
  ∧ ∃ k,
      (Z.of_nat k < max_iterations)%Z
      ∧ loop_attempt self raw_payload sleep_time k w = Some (inr event, w')
      ∧ invocations (trace w') = invocations (trace w) + (k + 1)
      ∧ sleeps (trace w') = sleeps (trace w) + k.
Proof.
  unfold deploy_loop, loop_attempt. intros H.
  pose proof (deepcopy_run raw_payload w) as Hcopy.
  destruct (deepcopy_calls _ _ _ _ Hcopy) as [Hin0 Hsl0].
  rewrite Hcopy. erewrite bind_inr in H by exact Hcopy.
  destruct (deploy_turns_returns_inv _ _ _ _ _ _ _ H) as (Hs & k & Hk & Ha).
  split; [done|]. exists k. split; [lia|]. split; [done|].
  destruct (deploy_turns_succeeds self _ sleep_time k (Z.to_nat max_iterations)
              _ event w' Hk Ha Hs) as (_ & Hin & Hsl).
  rewrite Hin, Hsl, Hin0, Hsl0. lia.
Qed.

Lemma deploy_loop_returns_only_success_witness :
  let w := Scenario.world_of "Add"
             {[ "Test::Resource" := Scenario.provider_of (Scenario.counting 2) ]} in
  let run := deploy_loop Scenario.executor Scenario.raw_payload 30 (Int 0) w in
  Event.status (event_or Scenario.blank run.1) = SUCCESS.
Proof.
  intros w run.
  assert (returns run.1 = true) as Hret by (vm_compute; reflexivity).
  pose proof (returns_event run Scenario.blank Hret) as Hrun.
  destruct (deploy_loop_returns_only_success Scenario.executor
              Scenario.raw_payload 30 (Int 0) w (event_or Scenario.blank run.1) run.2)
    as [Hs _]; [exact Hrun|exact Hs].
Defined.

Lemma execute_action_invokes_at_most_once {PS} (self : ResourceProviderExecutor)
    (payload : val) (w : world PS) out w' :
  execute_action self payload w = (out, w') →
  sleeps (trace w') = sleeps (trace w)
  ∧ ∃ i, i ≤ 1 ∧ invocations (trace w') = invocations (trace w) + i.
Proof.
  unfold execute_action. destruct (PRIVATE_REGISTRY w !! _) as [cls|]; cycle 1.
  { intros [= <- <-]. split; [done|]. exists 0. lia. }
  intros H.
  apply bind_inv in H as [(a & w1 & H1 & H)|(e & H1 & ->)]; cycle 1.
  { apply getitem_inv in H1 as [-> _]. split; [done|]. exists 0. lia. }
  apply getitem_inv in H1 as [-> _].
  apply bind_inv in H as [(request & w2 & H2 & H)|(e & H2 & ->)]; cycle 1.
  { apply (preserves_convert_payload same_calls) in H2 as [Hi Hs].
    split; [done|]. exists 0. lia. }
  apply (preserves_convert_payload same_calls) in H2 as [Hi2 Hs2].
  apply bind_inv in H as [(provider & w3 & H3 & H)|(e & H3 & ->)]; [|done].
  apply (preserves_instantiate same_calls) in H3 as [Hi3 Hs3].
  repeat case_decide;
    try (apply invoke_calls in H as [Hi Hs];
         split; [congruence|]; exists 1; split; [lia|]; lia).
  injection H as <- <-. split; [congruence|]. exists 0. lia.
Qed.

Lemma carry_context_sleeps_at_most_once {PS} (payload : val)
    (event : ProgressEvent) (t : number) (w : world PS) out w' :
  carry_context payload event t w = (out, w') →
  invocations (trace w') = invocations (trace w)
  ∧ ∃ s, s ≤ 1 ∧ sleeps (trace w') = sleeps (trace w) + s.
Proof.
  unfold carry_context. intros H.
  apply bind_inv in H as [(c & w1 & H1 & H)|(e & H1 & ->)]; cycle 1.
  { apply getitem_inv in H1 as [-> _]. split; [done|]. exists 0. lia. }
  apply getitem_inv in H1 as [-> _].
  apply bind_inv in H as [(d1 & w1 & H1 & H)|(e & H1 & ->)]; cycle 1.
  { apply mapping_inv in H1 as [-> _]. split; [done|]. exists 0. lia. }
  apply mapping_inv in H1 as [-> _].
  apply bind_inv in H as [(d2 & w1 & H1 & H)|(e & H1 & ->)]; cycle 1.
  { apply mapping_inv in H1 as [-> _]. split; [done|]. exists 0. lia. }
  apply mapping_inv in H1 as [-> _].
  apply bind_inv in H as [(r & w1 & H1 & H)|(e & H1 & ->)]; [|done].
  apply new_same_calls in H1 as [Hi1 Hs1].
  apply bind_inv in H as [(u & w2 & H2 & H)|(e & H2 & ->)]; cycle 1.
  { apply setitem_same_calls in H2 as [Hi2 Hs2].
    split; [congruence|]. exists 0. lia. }
  apply setitem_same_calls in H2 as [Hi2 Hs2].
  apply sleep_world in H as (_ & _ & _ & _ & _ & [(e & -> & Ht)|(-> & Ht)]);
    rewrite Ht.
  - split; [congruence|]. exists 0. lia.
  - rewrite invocations_snoc, sleeps_snoc. simpl.
    split; [lia|]. exists 1. lia.
Qed.

Lemma deploy_turns_bounds {PS} (self : ResourceProviderExecutor)
    (payload : val) (t : number) (n : nat) :
  ∀ (w : world PS) out w',
    deploy_turns self payload t n w = (out, w') →
    ∃ i s,
      invocations (trace w') = invocations (trace w) + i
      ∧ sleeps (trace w') = sleeps (trace w) + s
      ∧ s ≤ i ∧ i ≤ n.
Proof.
  induction n as [|n IH]; intros w out w' H.
  { injection H as _ <-. exists 0, 0. lia. }
  simpl in H.
  apply bind_inv in H as [(ev & w1 & He & H)|(e & He & _)]; cycle 1.
  { apply execute_action_invokes_at_most_once in He as (Hs & i & Hi & Hin).
    exists i, 0. lia. }
  pose proof (execute_action_calls _ _ _ _ _ He) as [Hs1 Hi1].
  specialize (Hi1 ev eq_refl).
  case_decide.
  { injection H as _ <-. exists 1, 0. lia. }
  apply bind_inv in H as [(u & w2 & Hc & H)|(e & Hc & _)]; cycle 1.
  { apply carry_context_sleeps_at_most_once in Hc as (Hi2 & s & Hs & Hsl).
    exists 1, s. lia. }
  apply carry_context_calls in Hc as [Hi2 Hs2].
  destruct (IH _ _ _ H) as (i & s & Hin & Hsl & Hle & Hn).
  exists (S i), (S s). lia.
Qed.

(** X5.  Whatever the providers do and however the run ends, [deploy_loop]
    makes no more invocations than [max_iterations] allows, and does not
    sleep more often than it has invoked a provider. *)
Theorem deploy_loop_bounds {PS} (self : ResourceProviderExecutor)
    (raw_payload : val) (max_iterations : Z) (sleep_time : number) (w : world PS)
    (out : exn + ProgressEvent) (w' : world PS) :
  deploy_loop self raw_payload max_iterations sleep_time w = (out, w') →
  ∃ i s,
    invocations (trace w') = invocations (trace w) + i
    ∧ sleeps (trace w') = sleeps (trace w) + s
    ∧ s ≤ i ∧ i ≤ Z.to_nat max_iterations.
Proof.
  unfold deploy_loop. intros H.
  pose proof (deepcopy_run raw_payload w) as Hcopy.
  destruct (deepcopy_calls _ _ _ _ Hcopy) as [Hin0 Hsl0].
  erewrite bind_inr in H by exact Hcopy.
  destruct (deploy_turns_bounds _ _ _ _ _ _ _ H) as (i & s & Hin & Hsl & Hle & Hn).
  exists i, s. rewrite Hin, Hsl, Hin0, Hsl0. lia.
Qed.

Lemma deploy_loop_bounds_witness :
  let w := Scenario.world_of "Add"
             {[ "Test::Resource" :=
                  Scenario.provider_of (Providers.failing_later "Throttled") ]} in
  let run := deploy_loop Scenario.executor Scenario.raw_payload 30 (Int 0) w in
  ∃ i s,
    invocations (trace run.2) = i ∧ sleeps (trace run.2) = s ∧ s ≤ i ∧ i ≤ 30.
Proof.
  intros w run.
  destruct (deploy_loop_bounds Scenario.executor Scenario.raw_payload 30 (Int 0) w
              run.1 run.2) as (i & s & Hin & Hsl & Hle & Hn);
    [apply surjective_pairing|].
  exists i, s. split; [exact Hin|]. split; [exact Hsl|].
  split; [exact Hle|exact Hn].
Defined.

Lemma deploy_turns_raises {PS} (self : ResourceProviderExecutor)
    (payload : val) (t : number) (k : nat) :
  ∀ n (w : world PS) e w',
    k < n →
    attempt self payload t k w = Some (inl e, w') →
    deploy_turns self payload t n w = (inl e, w')
    ∧ sleeps (trace w') = sleeps (trace w) + k.
Proof.
  induction k as [|k IH]; intros n w e w' Hn Ha.
  - destruct n as [|n]; [lia|]. simpl in Ha. injection Ha as Ha.
    destruct (execute_action_calls _ _ _ _ _ Ha) as [Hsl _].
    split; [|lia]. simpl. by erewrite bind_inl.
  - destruct n as [|n]; [lia|].
    apply attempt_inv in Ha as (ev & w1 & u & w2 & He & Hns & Hc & Ha).
    destruct (IH n w2 e w') as (Hrun & Hsl); [lia|done|].
    destruct (execute_action_calls _ _ _ _ _ He) as [Hsl1 _].
    destruct (carry_context_calls _ _ _ _ _ _ Hc) as [_ Hsl2].
    split; [by erewrite deploy_turns_step|]. lia.
Qed.

(** X6.  The loop catches nothing: when an attempt within the iterations
    allowed raises, be it in the translation, in the dispatch or in the
    provider, [deploy_loop] raises the same exception and leaves the world as
    that attempt left it; it has slept once after each earlier attempt and
    does not sleep, merge or try again after this one. *)
Theorem deploy_loop_propagates_exceptions {PS} (self : ResourceProviderExecutor)
    (raw_payload : val) (max_iterations : Z) (sleep_time : number) (k : nat)
    (w : world PS) (e : exn) (w' : world PS) :
  (Z.of_nat k < max_iterations)%Z →
  loop_attempt self raw_payload sleep_time k w = Some (inl e, w') →
  deploy_loop self raw_payload max_iterations sleep_time w = (inl e, w')
  ∧ sleeps (trace w') = sleeps (trace w) + k.
Proof.
  intros Hk Ha. unfold loop_attempt in Ha. unfold deploy_loop.
  pose proof (deepcopy_run raw_payload w) as Hcopy.
  destruct (deepcopy_calls _ _ _ _ Hcopy) as [_ Hsl0].
  rewrite Hcopy in Ha. erewrite bind_inr by exact Hcopy.
  assert (k < Z.to_nat max_iterations) as Hn by lia.
  destruct (deploy_turns_raises self _ sleep_time k (Z.to_nat max_iterations)
              _ e w' Hn Ha) as (Hrun & Hsl).
  split; [done|]. rewrite Hsl, Hsl0. lia.
Qed.

#[global] Instance exn_eq_dec : EqDecision exn.
Proof. solve_decision. Defined.

(** An outcome that is the exception [e]. *)
Definition raises {A} (e : exn) (out : exn + A) : bool :=
  match out with inl e' => bool_decide (e' = e) | inr _ => false end.

Lemma attempt_raises_exn {W} (o : option ((exn + ProgressEvent) * W)) e w0 :
  from_option (λ p, raises e p.1) false o = true →
  o = Some (inl e, (default (inl TypeError, w0) o).2).
Proof.
  destruct o as [[[e'|ev] w]|]; try done. simpl.
  intros H. apply bool_decide_eq_true in H. by subst.
Qed.

Lemma deploy_loop_propagates_exceptions_witness :
  let w := Scenario.world_of "Add"
             {[ "Test::Resource" :=
                  Scenario.provider_of (Providers.failing_later "Throttled") ]} in
  ∃ w',
    deploy_loop Scenario.executor Scenario.raw_payload 30 (Int 0) w
    = (inl (OtherError "Throttled"), w')
    ∧ sleeps (trace w') = 1.
Proof.
  intros w.
  pose proof (attempt_raises_exn
                (loop_attempt Scenario.executor Scenario.raw_payload (Int 0) 1 w)
                (OtherError "Throttled") w) as Ho.
  assert (from_option
            (λ p : (exn + ProgressEvent) * world nat,
               raises (OtherError "Throttled") p.1) false
            (loop_attempt Scenario.executor Scenario.raw_payload (Int 0) 1 w) = true)
    as Hret by (vm_compute; reflexivity).
  specialize (Ho Hret). clear Hret.
  set (o := default _ _) in Ho.
  destruct (deploy_loop_propagates_exceptions Scenario.executor
              Scenario.raw_payload 30 (Int 0) 1 w (OtherError "Throttled") o.2)
    as [Hrun Hsl]; [lia|exact Ho|].
  exists o.2. split; [exact Hrun|exact Hsl].
Defined.

(** ** The first attempt of a run *)

Definition relocate_reads (n : nat) (r : reads) : reads :=
  {| read_access_key := relocate n (read_access_key r);
     read_session_token := relocate n (read_session_token r);
     read_secret_key := relocate n (read_secret_key r);
     read_region := relocate n (read_region r);
     read_properties := relocate n (read_properties r);
     read_logical_id := relocate n (read_logical_id r);
     read_context := relocate n (read_context r) |}.

(** The copy of an object has the keys of the object, with the copies of
    its values. *)
Lemma field_deepcopy (h : store) v key :
  field (h ++ (relocate_obj (length h) <$> h)) (relocate (length h) v) key
  = relocate (length h) <$> field h v key.
Proof.
  unfold field, dict_at. destruct v as [| | | |l]; try done. simpl.
  rewrite lookup_app_r by lia.
  replace (l + length h - length h) with l by lia.
  rewrite list_lookup_fmap.
  destruct (h !! l) as [[d|xs]|]; try done. simpl. apply lookup_fmap.
Qed.

Lemma payload_reads_deepcopy (h : store) payload :
  payload_reads (h ++ (relocate_obj (length h) <$> h)) (relocate (length h) payload)
  = relocate_reads (length h) <$> payload_reads h payload.
Proof.
  unfold payload_reads. rewrite !field_deepcopy.
  destruct (field h payload "requestData") as [rd|]; [|done]. simpl.
  rewrite !field_deepcopy.
  destruct (field h rd "callerCredentials") as [cc|]; [|done]. simpl.
  rewrite !field_deepcopy.
  destruct (field h cc "accessKeyId") as [ak|]; [|done]. simpl.
  destruct (field h cc "sessionToken") as [st|]; [|done]. simpl.
  destruct (field h cc "secretAccessKey") as [sk|]; [|done]. simpl.
  destruct (field h payload "region") as [rg|]; [|done]. simpl.
  destruct (field h rd "resourceProperties") as [pr|]; [|done]. simpl.
  destruct (field h rd "logicalResourceId") as [li|]; [|done]. simpl.
  by destruct (field h payload "callbackContext") as [cx|].
Qed.



(** X8.  A capability that the class leaves to [ResourceProvider] raises
    [NotImplementedError], with no argument, as an unregistered type
    does: [execute_action] raises it after the translation and one
    invocation, and [deploy_loop], with one iteration or more allowed, raises
    it at its first attempt, without a sleep or a second try. *)
Theorem capability_not_implemented_is_fatal {PS}
    (self : ResourceProviderExecutor) (payload : val) (w : world PS)
    (cls : ProviderCls PS) (action : string) (c : capability_name) :
  PRIVATE_REGISTRY w !! resource_type self = Some cls →
  is_ResourceProviderPayload (heap w) payload = true →
  field (heap w) payload "action" = Some (VStr action) →
  capability_for action = Some c →
  capability_of c cls = not_implemented →
  (∃ w',
     execute_action self payload w = (inl (NotImplementedError None), w')
     ∧ invocations (trace w') = S (invocations (trace w))
     ∧ uuid_draws w' = S (uuid_draws w)
     ∧ heap w' = heap w
     ∧ providers_state w' = providers_state w)
  ∧ (∀ max_iterations sleep_time,
       (0 < max_iterations)%Z →
       ∃ w',
         deploy_loop self payload max_iterations sleep_time w
         = (inl (NotImplementedError None), w')
         ∧ invocations (trace w') = S (invocations (trace w))
         ∧ sleeps (trace w') = sleeps (trace w)
         ∧ providers_state w' = providers_state w).
Proof.
  intros Hreg Htyped Ha Hc Hcap.
  destruct (typed_payload_reads _ _ Htyped) as [[r Hr] _].
  split.
  - eexists. split.
    { rewrite (execute_action_capability self payload w cls r action c) by done.
      unfold invoke. rewrite Hcap. reflexivity. }
    simpl. rewrite !invocations_snoc. simpl. repeat split; lia.
  - intros max_iterations sleep_time Hmax. eexists. split.
    { unfold deploy_loop. erewrite bind_inr by apply deepcopy_run.
      destruct (Z.to_nat max_iterations) as [|n] eqn:Hn; [lia|]. simpl.
      erewrite bind_inl; [done|].
      rewrite (execute_action_capability self _ _ cls
                 (relocate_reads (length (heap w)) r) action c);
        [|done|simpl; by rewrite payload_reads_deepcopy, Hr
         |simpl; by rewrite field_deepcopy, Ha|done].
      unfold invoke. rewrite Hcap. reflexivity. }
    simpl. rewrite !invocations_snoc, !sleeps_snoc. simpl. repeat split; lia.
Qed.

Lemma capability_not_implemented_is_fatal_witness :
  let cls := Providers.create_only (Scenario.constant SUCCESS) in
  let w := Scenario.world_of "Remove" {[ "Test::Resource" := cls ]} in
  ∃ w',
    deploy_loop Scenario.executor Scenario.raw_payload 30 (Int 5) w
    = (inl (NotImplementedError None), w')
    ∧ invocations (trace w') = 1
    ∧ sleeps (trace w') = 0.
Proof.
  intros cls w.
  destruct (capability_not_implemented_is_fatal Scenario.executor
              Scenario.raw_payload w cls "Remove" Delete)
    as [_ Hloop];
    [reflexivity|vm_compute; reflexivity|vm_compute; reflexivity
    |reflexivity|reflexivity|].
  destruct (Hloop 30%Z (Int 5)) as (w' & Hrun & Hin & Hsl & _); [lia|].
  exists w'. split; [exact Hrun|]. split; [exact Hin|exact Hsl].
Defined.

(** ** Payloads that are not of the declared type *)

Lemma getitem_missing {PS} v key (w : world PS) d :
  dict_at (heap w) v = Some d → d !! key = None →
  getitem v key w = (inl (KeyError key), w).
Proof.
  unfold dict_at, getitem. intros Hd Hk.
  destruct v as [| | | |l]; try done.
  destruct (heap w !! l) as [[d'|]|]; simplify_eq. by rewrite Hk.
Qed.

Lemma getitem_not_a_dict {PS} v key (w : world PS) :
  dict_at (heap w) v = None → getitem v key w = (inl TypeError, w).
Proof.
  unfold dict_at, getitem. intros Hd.
  destruct v as [| | | |l]; try done.
  by destruct (heap w !! l) as [[d'|]|].
Qed.

(** X9.  The action is read first: on a registered resource type, a payload
    without the key [action] makes [execute_action] raise [KeyError] for it,
    and a payload that is no dict [TypeError], before anything is
    translated: no client factory is built, no token drawn, no provider
    instantiated, and the world is as it was. *)
Theorem missing_action_fails_before_translation {PS}
    (self : ResourceProviderExecutor) (payload : val) (w : world PS)
    (cls : ProviderCls PS) :
  PRIVATE_REGISTRY w !! resource_type self = Some cls →
  field (heap w) payload "action" = None →
  ∃ e,
    execute_action self payload w = (inl e, w)
    ∧ e = match dict_at (heap w) payload with
          | Some _ => KeyError "action"
          | None => TypeError
          end.
Proof.
  intros Hreg Ha. unfold execute_action. rewrite Hreg.
  destruct (dict_at (heap w) payload) as [d|] eqn:Hd.
  - exists (KeyError "action"). split; [|done].
    erewrite bind_inl; [done|]. apply (getitem_missing _ _ _ d); [done|].
    unfold field in Ha. by rewrite Hd in Ha.
  - exists TypeError. split; [|done].
    erewrite bind_inl; [done|]. by apply getitem_not_a_dict.
Qed.

Lemma missing_action_fails_before_translation_witness :
  let cls := Scenario.provider_of (Scenario.constant SUCCESS) in
  let w := Scenario.world_from (Providers.store_without "action")
             {[ "Test::Resource" := cls ]} in
  execute_action Scenario.executor Scenario.raw_payload w
  = (inl (KeyError "action"), w)
  ∧ execute_action Scenario.executor VNone w = (inl TypeError, w).
Proof.
  intros cls w. split.
  - destruct (missing_action_fails_before_translation Scenario.executor
                Scenario.raw_payload w cls) as (e & Hrun & He);
      [reflexivity|vm_compute; reflexivity|].
    rewrite Hrun. f_equal. f_equal. rewrite He. vm_compute. reflexivity.
  - destruct (missing_action_fails_before_translation Scenario.executor
                VNone w cls) as (e & Hrun & He); [reflexivity|reflexivity|].
    rewrite Hrun. f_equal. f_equal. exact He.
Defined.

(** X10.  The [callbackContext] is read last: on a payload that has all the
    translator reads but that key, [convert_payload] raises [KeyError] for it
    when the client factory is built, the token drawn and the logger
    fetched; the draw is spent. *)
Theorem missing_context_fails_after_the_draw {PS} (stack_name stack_id : string)
    (payload : val) (w : world PS)
    (rd cc access_key session_token secret_key region properties logical_id : val) :
  field (heap w) payload "requestData" = Some rd →
  field (heap w) rd "callerCredentials" = Some cc →
  field (heap w) cc "accessKeyId" = Some access_key →
  field (heap w) cc "sessionToken" = Some session_token →
  field (heap w) cc "secretAccessKey" = Some secret_key →
  field (heap w) payload "region" = Some region →
  field (heap w) rd "resourceProperties" = Some properties →
  field (heap w) rd "logicalResourceId" = Some logical_id →
  field (heap w) payload "callbackContext" = None →
  ∃ f w',
    convert_payload stack_name stack_id payload w
    = (inl (KeyError "callbackContext"), w')
    ∧ trace w'
      = trace w ++ [CallConnect f; CallUuid4 (uuid_draws w); CallGetLogger "abc"]
    ∧ client_region_name f = region
    ∧ uuid_draws w' = S (uuid_draws w)
    ∧ heap w' = heap w.
Proof.
  intros Hrd Hcc Hak Hst Hsk Hrg Hpr Hli Hcx.
  eexists _, _. split.
  - unfold convert_payload.
    do 10 (erewrite bind_inr by (by apply getitem_field)).
    erewrite bind_inr by done.
    do 2 (erewrite bind_inr by (by apply getitem_field)).
    erewrite bind_inr by done.
    do 2 (erewrite bind_inr by (by apply getitem_field)).
    erewrite bind_inr by done.
    erewrite bind_inl; [done|].
    unfold field in Hrd, Hcx. simpl.
    destruct (dict_at (heap w) payload) as [d|] eqn:Hd; [|done].
    by apply (getitem_missing _ _ _ d).
  - simpl. rewrite <- !app_assoc. done.
Qed.

Lemma missing_context_fails_after_the_draw_witness :
  let w := Scenario.world_from (Providers.store_without "callbackContext") ∅ in
  ∃ w',
    convert_payload "stack" "stack-1" Scenario.raw_payload w
    = (inl (KeyError "callbackContext"), w')
    ∧ uuid_draws w' = 1.
Proof.
  intros w.
  destruct (missing_context_fails_after_the_draw "stack" "stack-1"
              Scenario.raw_payload w (VRef 8) (VRef 1) (VStr "test") (VStr "")
              (VStr "test") (VStr "eu-west-1") (VRef 3) (VStr "Res"))
    as (f & w' & Hrun & _ & _ & Hdraws & _); try (vm_compute; reflexivity).
  exists w'. split; [exact Hrun|exact Hdraws].
Defined.

(** ** Turns that fail after the attempt *)

Lemma deploy_turns_carry_fails {PS} (self : ResourceProviderExecutor)
    (payload : val) (t : number) (k : nat) :
  ∀ n (w : world PS) event w1 e w2,
    k < n →
    attempt self payload t k w = Some (inr event, w1) →
    Event.status event ≠ SUCCESS →
    carry_context payload event t w1 = (inl e, w2) →
    deploy_turns self payload t n w = (inl e, w2).
Proof.
  induction k as [|k IH]; intros n w event w1 e w2 Hn Ha Hns Hc.
  - destruct n as [|n]; [lia|]. simpl in Ha. injection Ha as Ha. simpl.
    erewrite bind_inr by done. rewrite decide_False by done.
    by erewrite bind_inl.
  - destruct n as [|n]; [lia|].
    apply attempt_inv in Ha as (ev & w1' & u & w2' & He & Hns' & Hc' & Ha).
    erewrite deploy_turns_step by done. eapply IH; [lia|done..].
Qed.

(** X11.  A context that is no dict ends the run: when an attempt within the
    iterations allowed returns an event whose status is not [SUCCESS] and
    whose [custom_context] is not a dict, [None] for instance, the merge
    raises [TypeError] and so does [deploy_loop], in the world that the
    attempt left: the payload keeps its context and the loop has not
    slept after this attempt. *)
Theorem context_that_is_no_dict_is_fatal {PS} (self : ResourceProviderExecutor)
    (raw_payload : val) (max_iterations : Z) (sleep_time : number) (k : nat)
    (w : world PS) (event : ProgressEvent) (w1 : world PS) :
  (Z.of_nat k < max_iterations)%Z →
  loop_attempt self raw_payload sleep_time k w = Some (inr event, w1) →
  Event.status event ≠ SUCCESS →
  is_Some (context_of (heap w1) (relocate (length (heap w)) raw_payload)) →
  dict_at (heap w1) (Event.custom_context event) = None →
  deploy_loop self raw_payload max_iterations sleep_time w = (inl TypeError, w1).
Proof.
  intros Hk Ha Hns [prev Hprev] Hctx. unfold loop_attempt in Ha.
  unfold deploy_loop. pose proof (deepcopy_run raw_payload w) as Hcopy.
  rewrite Hcopy in Ha. erewrite bind_inr by exact Hcopy.
  eapply (deploy_turns_carry_fails self _ sleep_time k); [lia|done..|].
  set (payload := relocate _ _) in *.
  rewrite context_of_field in Hprev.
  destruct (field (heap w1) payload "callbackContext") as [c|] eqn:Hc; [|done].
  simpl in Hprev. unfold carry_context.
  erewrite bind_inr by (by apply getitem_field).
  erewrite bind_inr by (unfold mapping; by rewrite Hprev).
  erewrite bind_inl; [done|]. unfold mapping. by rewrite Hctx.
Qed.

Lemma context_that_is_no_dict_is_fatal_witness :
  let w := Scenario.world_of "Add"
             {[ "Test::Resource" := Scenario.provider_of Providers.careless ]} in
  ∃ w1,
    deploy_loop Scenario.executor Scenario.raw_payload 30 (Int 0) w = (inl TypeError, w1)
    ∧ context_of (heap w1) (VRef 19) = Some ∅.
Proof.
  intros w.
  pose proof (attempt_returns_event
                (loop_attempt Scenario.executor Scenario.raw_payload (Int 0) 0 w)
                Scenario.blank w) as Ho.
  assert (from_option (λ p : (exn + ProgressEvent) * world nat, returns p.1) false
            (loop_attempt Scenario.executor Scenario.raw_payload (Int 0) 0 w) = true)
    as Hret by (vm_compute; reflexivity).
  specialize (Ho Hret). clear Hret.
  set (o := default _ _) in Ho.
  assert (context_of (heap o.2) (VRef 19) = Some ∅) as Hctx
    by (vm_compute; reflexivity).
  exists o.2. split; [|exact Hctx].
  apply (context_that_is_no_dict_is_fatal Scenario.executor Scenario.raw_payload
           30 (Int 0) 0 w (event_or Scenario.blank o.1) o.2).
  - lia.
  - exact Ho.
  - vm_compute. discriminate.
  - exists ∅. exact Hctx.
  - vm_compute. reflexivity.
Defined.

(** What [time.sleep] raises for a delay it refuses. *)
Lemma timeout_of_refusal t e :
  timeout_of t = inl e → e = ValueError ∨ e = OverflowError.
Proof.
  unfold timeout_of, nanoseconds. intros H.
  repeat case_match; simplify_eq; auto.
Qed.

(** A negative [int] is refused with [ValueError] down to [-9223372036] and
    with [OverflowError] below; an [int] above [9223372036] with
    [OverflowError]. *)
Lemma timeout_of_Int_refused (n : Z) :
  (n < 0 ∨ 9223372036 < n)%Z →
  timeout_of (Int n)
  = inl (if ((-9223372036 <=? n) && (n <? 0))%Z then ValueError
         else OverflowError).
Proof.
  intros Hn. unfold timeout_of, nanoseconds.
  change ((- 2 ^ 63) `quot` 10 ^ 9)%Z with (-9223372036)%Z.
  change ((2 ^ 63 - 1) `quot` 10 ^ 9)%Z with 9223372036%Z.
  destruct (Z.ltb_spec n (-9223372036)), (Z.ltb_spec 9223372036 n),
    (Z.leb_spec (-9223372036) n), (Z.ltb_spec n 0); simpl; try lia; try done.
  by rewrite (proj2 (Z.ltb_lt (n * 10 ^ 9) 0)) by lia.
Qed.

Lemma carry_context_refused {PS} payload event t e (w : world PS)
    previous returned :
  context_of (heap w) payload = Some previous →
  dict_at (heap w) (Event.custom_context event) = Some returned →
  timeout_of t = inl e →
  ∃ w', carry_context payload event t w = (inl e, w')
        ∧ context_of (heap w') payload = Some (returned ∪ previous)
        ∧ trace w' = trace w
        ∧ providers_state w' = providers_state w
        ∧ clock_reads w' = clock_reads w.
Proof.
  intros Hctx Hret Ht. unfold context_of in Hctx.
  destruct (dict_at (heap w) payload) as [d|] eqn:Hd; [|done]. simpl in Hctx.
  destruct (d !! "callbackContext") as [c|] eqn:Hc; [|done]. simpl in Hctx.
  destruct payload as [| | | |p]; try done. simpl in Hd.
  destruct (heap w !! p) as [[d'|]|] eqn:Hp; simplify_eq.
  assert (p < length (heap w)) as Hlt by (by eapply lookup_lt_Some).
  eexists. split.
  { unfold carry_context.
    erewrite bind_inr; [|unfold getitem; by rewrite Hp, Hc].
    erewrite bind_inr; [|unfold mapping; by rewrite Hctx].
    erewrite bind_inr; [|unfold mapping; by rewrite Hret].
    erewrite bind_inr; [|done].
    erewrite bind_inr; cycle 1.
    { unfold setitem; simpl. rewrite lookup_app_l by done. by rewrite Hp. }
    unfold sleep. by rewrite Ht. }
  simpl. split; [|done].
  unfold context_of. simpl.
  rewrite list_lookup_insert_eq by (rewrite length_app; lia). simpl.
  rewrite lookup_insert_eq. simpl.
  rewrite list_lookup_insert_ne by lia.
  by rewrite lookup_app_r, Nat.sub_diag by lia.
Qed.

(** X12.  A delay that [time.sleep] refuses ends the run at the first sleep:
    when the first attempt returns an event whose status is not [SUCCESS],
    [deploy_loop] merges the contexts and then raises what [time.sleep]
    raises for the delay, [ValueError] or [OverflowError], after one
    invocation, without having slept or read the clock; the second attempt
    is never made.  For an [int] the error is [ValueError] from [-1] down to
    [-9223372036] and [OverflowError] below that and above [9223372036]. *)
Theorem refused_delay_is_fatal {PS} (self : ResourceProviderExecutor)
    (raw_payload : val) (max_iterations : Z) (sleep_time : number) (e : exn)
    (w : world PS) (event : ProgressEvent) (w1 : world PS)
    (previous returned : gmap string val) :
  let payload := relocate (length (heap w)) raw_payload in
  (0 < max_iterations)%Z → timeout_of sleep_time = inl e →
  loop_attempt self raw_payload sleep_time 0 w = Some (inr event, w1) →
  Event.status event ≠ SUCCESS →
  context_of (heap w1) payload = Some previous →
  dict_at (heap w1) (Event.custom_context event) = Some returned →
  (e = ValueError ∨ e = OverflowError)
  ∧ (∀ n, sleep_time = Int n →
          (n < 0 ∨ 9223372036 < n)%Z
          ∧ e = if ((-9223372036 <=? n) && (n <? 0))%Z then ValueError
                else OverflowError)
  ∧ ∃ w2,
      deploy_loop self raw_payload max_iterations sleep_time w = (inl e, w2)
      ∧ loop_attempt self raw_payload sleep_time 1 w = None
      ∧ context_of (heap w2) payload = Some (returned ∪ previous)
      ∧ invocations (trace w2) = S (invocations (trace w))
      ∧ sleeps (trace w2) = sleeps (trace w)
      ∧ clock_reads w2 = clock_reads w.
Proof.
  intros payload Hmax Ht Ha Hns Hprev Hret.
  split; [by eapply timeout_of_refusal|]. split.
  { intros n ->.
    assert (n < 0 ∨ 9223372036 < n)%Z as Hn.
    { destruct (decide (0 ≤ n ≤ 9223372036)%Z) as [Hin|Hout]; [|lia].
      rewrite timeout_of_Int in Ht by done. done. }
    split; [done|]. rewrite timeout_of_Int_refused in Ht by done.
    by injection Ht. }
  destruct (carry_context_refused payload event sleep_time e w1 previous
              returned) as (w2 & Hc & Hctx & Htr & _ & Hcl); [done..|].
  exists w2. unfold loop_attempt in *. unfold deploy_loop.
  pose proof (deepcopy_run raw_payload w) as Hcopy.
  destruct (deepcopy_calls _ _ _ _ Hcopy) as [Hin0 Hsl0].
  rewrite Hcopy in *. erewrite bind_inr by exact Hcopy.
  fold payload in Ha |- *. simpl in Ha. injection Ha as Ha.
  destruct (execute_action_calls _ _ _ _ _ Ha) as [Hsl1 Hin1].
  destruct (execute_action_clock _ _ _ _ _ Ha) as [_ Hcl1].
  specialize (Hin1 event eq_refl).
  split; [|split; [|split; [done|]]].
  - eapply (deploy_turns_carry_fails self payload sleep_time 0); [lia| |done..].
    simpl. by rewrite Ha.
  - simpl. by rewrite Ha, decide_False, Hc.
  - simpl in Hcl1. rewrite Htr. repeat split; congruence.
Qed.

(** A delay of [-1] and a delay of [float("inf")]: [ValueError] and
    [OverflowError] after the first attempt and its merge. *)
Lemma refused_delay_is_fatal_witness :
  let w := Scenario.world_of "Add"
             {[ "Test::Resource" := Scenario.provider_of (Scenario.counting 2) ]} in
  (∃ w2,
     deploy_loop Scenario.executor Scenario.raw_payload 30 (Int (-1)) w
     = (inl ValueError, w2)
     ∧ context_of (heap w2) (VRef 19) = Some ({[ "attempt" := VInt 1 ]} ∪ ∅)
     ∧ invocations (trace w2) = 1
     ∧ sleeps (trace w2) = 0)
  ∧ (∃ w2,
       deploy_loop Scenario.executor Scenario.raw_payload 30 Scenario.forever w
       = (inl OverflowError, w2)
       ∧ context_of (heap w2) (VRef 19) = Some ({[ "attempt" := VInt 1 ]} ∪ ∅)
       ∧ invocations (trace w2) = 1
       ∧ sleeps (trace w2) = 0).
Proof.
  intros w. split.
  - pose proof (attempt_returns_event
                  (loop_attempt Scenario.executor Scenario.raw_payload (Int (-1)) 0 w)
                  Scenario.blank w) as Ho.
    assert (from_option (λ p : (exn + ProgressEvent) * world nat, returns p.1)
              false
              (loop_attempt Scenario.executor Scenario.raw_payload (Int (-1)) 0 w)
            = true)
      as Hret by (vm_compute; reflexivity).
    specialize (Ho Hret). clear Hret.
    set (o := default _ _) in Ho.
    destruct (refused_delay_is_fatal Scenario.executor Scenario.raw_payload
                30 (Int (-1)) ValueError w (event_or Scenario.blank o.1) o.2 ∅
                {[ "attempt" := VInt 1 ]})
      as (_ & _ & w2 & Hrun & _ & Hctx & Hin & Hsl & _).
    + lia.
    + reflexivity.
    + exact Ho.
    + vm_compute. discriminate.
    + vm_compute. reflexivity.
    + vm_compute. reflexivity.
    + exists w2. split; [exact Hrun|]. split; [exact Hctx|].
      split; [exact Hin|exact Hsl].
  - pose proof (attempt_returns_event
                  (loop_attempt Scenario.executor Scenario.raw_payload
                     Scenario.forever 0 w)
                  Scenario.blank w) as Ho.
    assert (from_option (λ p : (exn + ProgressEvent) * world nat, returns p.1)
              false
              (loop_attempt Scenario.executor Scenario.raw_payload
                 Scenario.forever 0 w)
            = true)
      as Hret by (vm_compute; reflexivity).
    specialize (Ho Hret). clear Hret.
    set (o := default _ _) in Ho.
    destruct (refused_delay_is_fatal Scenario.executor Scenario.raw_payload
                30 Scenario.forever OverflowError w
                (event_or Scenario.blank o.1) o.2 ∅ {[ "attempt" := VInt 1 ]})
      as (_ & _ & w2 & Hrun & _ & Hctx & Hin & Hsl & _).
    + lia.
    + reflexivity.
    + exact Ho.
    + vm_compute. discriminate.
    + vm_compute. reflexivity.
    + vm_compute. reflexivity.
    + exists w2. split; [exact Hrun|]. split; [exact Hctx|].
      split; [exact Hin|exact Hsl].
Defined.

(** ** The merge *)

(** X13.  The merge is shallow and writes to the payload only: whatever its
    outcome, [carry_context] loses no object and changes none but the payload
    dict; the dict of the event and the dict that held the context before are
    as they were, and the new context is an object of its own. *)
Theorem carry_context_writes_the_payload_only {PS} (payload : val)
    (event : ProgressEvent) (sleep_time : number) (w : world PS)
    (out : exn + ()) (w' : world PS) :
  carry_context payload event sleep_time w = (out, w') →
  length (heap w) ≤ length (heap w')
  ∧ (∀ l, l < length (heap w) → VRef l ≠ payload →
          heap w' !! l = heap w !! l)
  ∧ (returns out = true →
     ∃ d, dict_at (heap w') payload
          = Some (<["callbackContext" := VRef (length (heap w))]> d)
          ∧ dict_at (heap w) payload = Some d
          ∧ length (heap w') = S (length (heap w))).
Proof.
  unfold carry_context. intros H.
  apply bind_inv in H as [(c & w1 & H1 & H)|(e & H1 & ->)]; cycle 1.
  { apply getitem_inv in H1 as [-> _]. by repeat split. }
  apply getitem_inv in H1 as [-> Hc]. specialize (Hc _ eq_refl).
  apply bind_inv in H as [(d1 & w1 & H1 & H)|(e & H1 & ->)]; cycle 1.
  { apply mapping_inv in H1 as [-> _]. by repeat split. }
  apply mapping_inv in H1 as [-> _].
  apply bind_inv in H as [(d2 & w1 & H1 & H)|(e & H1 & ->)]; cycle 1.
  { apply mapping_inv in H1 as [-> _]. by repeat split. }
  apply mapping_inv in H1 as [-> _].
  apply bind_inv in H as [(r & w1 & H1 & H)|(e & H1 & ->)]; [|done].
  injection H1 as <- <-.
  unfold field, dict_at in Hc. destruct payload as [| | | |q]; try done.
  destruct (heap w !! q) as [[d|]|] eqn:Hq; try done. simpl in Hc.
  assert (q < length (heap w)) as Hlt by (by eapply lookup_lt_Some).
  erewrite bind_inr in H; cycle 1.
  { unfold setitem. simpl. rewrite lookup_app_l by done. by rewrite Hq. }
  assert (length (<[q := ODict (<["callbackContext" := VRef (length (heap w))]> d)]>
                    (heap w ++ [ODict (d2 ∪ d1)])) = S (length (heap w))) as Hlen.
  { rewrite length_insert, length_app. simpl. lia. }
  assert (∀ l, l < length (heap w) → VRef l ≠ VRef q →
               <[q := ODict (<["callbackContext" := VRef (length (heap w))]> d)]>
                 (heap w ++ [ODict (d2 ∪ d1)]) !! l = heap w !! l) as Hframe.
  { intros l Hl Hne. rewrite list_lookup_insert_ne by congruence.
    by apply lookup_app_l. }
  assert (<[q := ODict (<["callbackContext" := VRef (length (heap w))]> d)]>
            (heap w ++ [ODict (d2 ∪ d1)]) !! q
          = Some (ODict (<["callbackContext" := VRef (length (heap w))]> d)))
    as Hpay.
  { apply list_lookup_insert_eq. rewrite length_app. lia. }
  apply sleep_world in H as (Hh & _). simpl in Hh. rewrite Hh.
  split; [lia|]. split; [done|]. intros _. exists d. simpl.
  rewrite Hpay, Hq. done.
Qed.

Lemma carry_context_writes_the_payload_only_witness :
  let w := Scenario.world_of "Add" ∅ in
  let event := Scenario.event_of IN_PROGRESS
                 (request_of "stack" "stack-1"
                    {| read_access_key := VNone; read_session_token := VNone;
                       read_secret_key := VNone; read_region := VNone;
                       read_properties := VRef 3; read_logical_id := VNone;
                       read_context := VRef 0 |} "token")
                 (VRef 3) in
  let run := carry_context Scenario.raw_payload event (Int 0) w in
  heap run.2 !! 3 = Some (ODict {[ "QueueName" := VStr "q" ]})
  ∧ heap run.2 !! 0 = Some (ODict ∅)
  ∧ context_of (heap run.2) Scenario.raw_payload
    = Some ({[ "QueueName" := VStr "q" ]} ∪ ∅).
Proof.
  intros w event run.
  destruct (carry_context_writes_the_payload_only Scenario.raw_payload event
              (Int 0) w
              run.1 run.2) as (_ & Hframe & _); [apply surjective_pairing|].
  split; [|split].
  - rewrite Hframe; [reflexivity|simpl; lia|discriminate].
  - rewrite Hframe; [reflexivity|simpl; lia|discriminate].
  - vm_compute. reflexivity.
Defined.

(** ** The tokens of a run *)





